(** * Plan-to-graph rendering of the n8n MCP server

    A shallow embedding of [renderWorkflow] and of the node catalog
    [NODE_SPECS] of [src/mcp-n8n/src/server.ts], followed by the properties
    the specification states about them.

    JavaScript objects are finite maps from property names to values
    ([gmap string _]); a property read on a plain object also sees the
    members the object inherits from [Object.prototype], which is written out
    in [get]. A call that can raise a [TypeError] returns a [result].

    The second part embeds the rest of the module: the configuration read at
    start-up, the client [n8n] and the handlers of the tools, as computations
    over the remote end behind [fetch]. *)

From Stdlib Require Import ZArith DecimalString DecimalNat.
From stdpp Require Import gmap strings list fin_maps.
From stdpp Require Import sorting.

Set Warnings "-register-all".
Local Open Scope string_scope.
Local Open Scope list_scope.

(** ** Values *)

(** The values that occur in a rendered graph: what [JSON.stringify] can see,
    plus [undefined] as the value of a property. Numbers in the graph are
    small non-negative integers, on which the arithmetic of JavaScript's
    doubles is exact. *)
Inductive json : Type :=
| JUndefined
| JNull
| JBool (b : bool)
| JNum (n : Z)
| JStr (s : string)
| JArr (l : list json)
| JObj (m : gmap string json).

(** An object literal [{ k1: v1, ..., kn: vn }]. *)
Definition obj (l : list (string * json)) : json := JObj (list_to_map l).

(** Property read [v.k] on a value of the graph (own properties only; the
    statements below use it on the literals the renderer builds). *)
Definition field (k : string) (v : json) : option json :=
  match v with
  | JObj m => m !! k
  | _ => None
  end.

(** The names of the own properties of a value. *)
Definition keys (v : json) : gset string :=
  match v with
  | JObj m => dom m
  | _ => ∅
  end.

(** ** Outcome of a call *)

Inductive result (A : Type) : Type :=
| Returns (a : A)
| Throws (e : string).
Arguments Returns {A} a.
Arguments Throws {A} e.

#[global] Instance result_bind : MBind result :=
  λ A B k r, match r with
             | Returns a => k a
             | Throws e => Throws e
             end.

(** A [for ... of] loop whose body may throw. *)
Fixpoint foldM {S A : Type} (f : S → A → result S) (l : list A) (s : S) : result S :=
  match l with
  | [] => Returns s
  | a :: l' => s' ← f s a; foldM f l' s'
  end.

(** ** Plain objects *)

(** The properties every plain object inherits from [Object.prototype]. *)
Definition ObjectPrototype : list string :=
  [ "constructor"; "__defineGetter__"; "__defineSetter__"; "hasOwnProperty";
    "__lookupGetter__"; "__lookupSetter__"; "isPrototypeOf";
    "propertyIsEnumerable"; "toString"; "valueOf"; "__proto__";
    "toLocaleString" ].

(** What [o[k]] evaluates to on a plain object [o]: an own property, a member
    inherited from [Object.prototype] (a function, or the prototype itself
    for [__proto__]; truthy in both cases), or [undefined]. *)
Inductive property (A : Type) : Type :=
| Own (a : A)
| Inherited (k : string)
| Undefined.
Arguments Own {A} a.
Arguments Inherited {A} k.
Arguments Undefined {A}.

Definition get {A : Type} (o : gmap string A) (k : string) : property A :=
  match o !! k with
  | Some a => Own a
  | None => if bool_decide (k ∈ ObjectPrototype) then Inherited k else Undefined
  end.

(** [o[k] = a] with a string [a]: an own property is written, except that
    assigning a primitive to [__proto__] is ignored. *)
Definition set {A : Type} (o : gmap string A) (k : string) (a : A) : gmap string A :=
  if bool_decide (k = "__proto__") then o else <[k := a]> o.

(** The property key an inherited member turns into when it is used as one:
    [Object.prototype] prints as [[object Object]], a built-in function as its
    native source text (the text Node prints). *)
Definition inheritedKey (k : string) : string :=
  if bool_decide (k = "__proto__") then "[object Object]"
  else "function " +:+ (if bool_decide (k = "constructor") then "Object" else k)
       +:+ "() { [native code] }".

(** [String(n)] on a non-negative integer. *)
Definition js_String (n : nat) : string :=
  NilZero.string_of_uint (Nat.to_uint n).

(** [a || d] on an optional string: [undefined] and the empty string are falsy. *)
Definition orElse (a : option string) (d : string) : string :=
  match a with
  | None => d
  | Some s => if bool_decide (s = "") then d else s
  end.

(** ** Data model and node catalog *)

Module Defaults.
(** The [defaults] of a catalog entry: [{}] or [{ parameters: {...} }] in
    every entry, so a record with the one optional property that is read. *)
Record t : Type := mk {
  parameters : option (gmap string json);
}.
End Defaults.

Module NodeSpec.
Record t : Type := mk {
  display : string;
  type : string;
  defaults : Defaults.t;
}.
End NodeSpec.

Definition ManualTrigger_spec : NodeSpec.t :=
  NodeSpec.mk "Manual Trigger" "n8n-nodes-base.manualTrigger" (Defaults.mk None).
Definition Cron_spec : NodeSpec.t :=
  NodeSpec.mk "Cron" "n8n-nodes-base.cron" (Defaults.mk None).
Definition Webhook_spec : NodeSpec.t :=
  NodeSpec.mk "Webhook" "n8n-nodes-base.webhook"
    (Defaults.mk (Some (list_to_map [("path", JStr "hook"); ("httpMethod", JStr "POST")]))).
Definition HTTPRequest_spec : NodeSpec.t :=
  NodeSpec.mk "HTTP Request" "n8n-nodes-base.httpRequest" (Defaults.mk None).

Definition NODE_SPECS : gmap string NodeSpec.t :=
  list_to_map
    [ ("Manual Trigger", ManualTrigger_spec);
      ("Cron", Cron_spec);
      ("Webhook", Webhook_spec);
      ("HTTP Request", HTTPRequest_spec) ].

Inductive Trigger : Type := manual | cron | webhook.

Module Step.
(** A parsed step: [parameters] defaults to [{}], [id] and [dependsOn] are
    optional. *)
Record t : Type := mk {
  id : option string;
  type : string;
  parameters : gmap string json;
  dependsOn : option (list string);
}.
End Step.

Module Args.
(** A parsed [RenderArgs]. *)
Record t : Type := mk {
  name : string;
  trigger : Trigger;
  cron : option string;
  steps : list Step.t;
}.
End Args.

(** ** Rendering *)

Definition nextPos (idx : Z) : json :=
  JArr [JNum (280 + idx * 220); JNum 300].

Definition triggerId : string := "1".

(** Phase 1: the trigger node. For [cron] the node is pushed with the
    every-minute parameters, which are then overwritten when [args.cron] is
    truthy. *)
Definition triggerNode (args : Args.t) : json :=
  match Args.trigger args with
  | manual =>
      obj [ ("id", JStr triggerId); ("name", JStr "Manual Trigger");
            ("type", JStr (NodeSpec.type ManualTrigger_spec));
            ("typeVersion", JNum 1); ("position", nextPos 0) ]
  | cron =>
      let node : gmap string json :=
        list_to_map
          [ ("id", JStr triggerId); ("name", JStr "Cron");
            ("type", JStr (NodeSpec.type Cron_spec)); ("typeVersion", JNum 1);
            ("parameters",
             obj [("triggerFunctions", JArr [obj [("function", JStr "everyMinute")]])]);
            ("position", nextPos 0) ] in
      match Args.cron args with
      | None => JObj node
      | Some c =>
          if bool_decide (c = "") then JObj node
          else JObj (<["parameters" := obj [("rule", JStr c)]]> node)
      end
  | webhook =>
      obj [ ("id", JStr triggerId); ("name", JStr "Webhook");
            ("type", JStr (NodeSpec.type Webhook_spec)); ("typeVersion", JNum 1);
            ("parameters",
             match Defaults.parameters (NodeSpec.defaults Webhook_spec) with
             | Some m => JObj m
             | None => JUndefined
             end);
            ("position", nextPos 0) ]
  end.

(** [NODE_SPECS[s.type] || { type: s.type, display: s.type, defaults: {} }],
    together with the reads [spec.type] and [spec.defaults.parameters] made
    on it: an inherited member is truthy, has no [defaults], and the read of
    [.parameters] on [undefined] throws. *)
Definition lookupSpec (type : string) : result NodeSpec.t :=
  match get NODE_SPECS type with
  | Own spec => Returns spec
  | Inherited _ =>
      Throws "TypeError: Cannot read properties of undefined (reading 'parameters')"
  | Undefined => Returns (NodeSpec.mk type type (Defaults.mk None))
  end.

(** [{ ...(spec.defaults.parameters || {}), ...(s.parameters || {}) }]: the
    keys of both, the step's value where both have the key. *)
Definition mergeParameters (spec : NodeSpec.t) (s : Step.t) : gmap string json :=
  Step.parameters s ∪ default ∅ (Defaults.parameters (NodeSpec.defaults spec)).

Record StepState : Type := mkStepState {
  order : nat;
  idByStep : gmap string string;
  nodes : list json;
}.

Definition stepKey (s : Step.t) (order : nat) : string :=
  orElse (Step.id s) (Step.type s +:+ "-" +:+ js_String order).

Definition stepNode (spec : NodeSpec.t) (s : Step.t) (order : nat) : json :=
  obj [ ("id", JStr (js_String order)); ("name", JStr (Step.type s));
        ("type", JStr (NodeSpec.type spec)); ("typeVersion", JNum 1);
        ("parameters", JObj (mergeParameters spec s));
        ("position", nextPos (Z.of_nat order - 1)) ].

(** Phase 2, one iteration. *)
Definition renderStep (st : StepState) (s : Step.t) : result StepState :=
  spec ← lookupSpec (Step.type s);
  let order := S (order st) in
  Returns {| order := order;
             idByStep := set (idByStep st) (stepKey s order) (js_String order);
             nodes := nodes st ++ [stepNode spec s order] |}.

(** The value of one parent: a node id, or an inherited member of the
    [idByStep] object. *)
Inductive parent : Type :=
| PId (id : string)
| PInherited (k : string).

Definition parentKey (p : parent) : string :=
  match p with
  | PId id => id
  | PInherited k => inheritedKey k
  end.

(** [k === 'trigger' ? triggerId : idByStep[k] || prev] *)
Definition resolveParent (idByStep : gmap string string) (prev k : string) : parent :=
  if bool_decide (k = "trigger") then PId triggerId
  else match get idByStep k with
       | Own id => PId (orElse (Some id) prev)
       | Inherited m => PInherited m
       | Undefined => PId prev
       end.

Definition parentsOf (idByStep : gmap string string) (prev : string) (s : Step.t)
  : list parent :=
  match Step.dependsOn s with
  | Some (k :: ks) => resolveParent idByStep prev <$> (k :: ks)
  | _ => [PId prev]
  end.

Definition edgeTo (current : string) : json :=
  obj [("node", JStr current); ("type", JStr "main"); ("index", JNum 0)].

(** [connections[p] = connections[p] || { main: [[]] };
     connections[p].main[0].push(edge)].
    The map holds, for every source, the edges of [main[0]]. An inherited
    member found under the key has no [main], so the push would throw. *)
Definition pushEdge (current : string) (connections : gmap string (list json))
    (p : parent) : result (gmap string (list json)) :=
  let key := parentKey p in
  match get connections key with
  | Own es => Returns (<[key := es ++ [edgeTo current]]> connections)
  | Inherited _ =>
      Throws "TypeError: Cannot read properties of undefined (reading '0')"
  | Undefined => Returns (<[key := [edgeTo current]]> connections)
  end.

Record ConnState : Type := mkConnState {
  prev : string;
  connections : gmap string (list json);
}.

(** Phase 3, the iteration at index [i]. *)
Definition connectStep (idByStep : gmap string string) (i : nat)
    (st : ConnState) (s : Step.t) : result ConnState :=
  let current := js_String (i + 2) in
  conn ← foldM (pushEdge current) (parentsOf idByStep (prev st) s) (connections st);
  Returns {| prev := current; connections := conn |}.

Fixpoint connectFrom (idByStep : gmap string string) (i : nat)
    (ss : list Step.t) (st : ConnState) : result ConnState :=
  match ss with
  | [] => Returns st
  | s :: ss' => st' ← connectStep idByStep i st s; connectFrom idByStep (S i) ss' st'
  end.

(** The object stored under a source: [{ main: [[e1, ..., en]] }]. *)
Definition fanout (es : list json) : json := obj [("main", JArr [JArr es])].

Definition initSteps (args : Args.t) : StepState :=
  {| order := 1; idByStep := ∅; nodes := [triggerNode args] |}.

Definition initConn : ConnState := {| prev := triggerId; connections := ∅ |}.

Definition renderWorkflow (args : Args.t) : result json :=
  st ← foldM renderStep (Args.steps args) (initSteps args);
  c ← connectFrom (idByStep st) 0 (Args.steps args) initConn;
  Returns (obj [ ("nodes", JArr (nodes st));
                 ("connections", JObj (fanout <$> connections c)) ]).

(** ** Reading a rendered graph *)

Definition graphNodes (g : json) : list json :=
  match field "nodes" g with
  | Some (JArr ns) => ns
  | _ => []
  end.

Definition graphConnections (g : json) : gmap string json :=
  match field "connections" g with
  | Some (JObj c) => c
  | _ => ∅
  end.

(** The edges leaving source [p]: [connections[p].main[0]], none when the
    source has no entry. *)
Definition outgoing (g : json) (p : string) : list json :=
  match graphConnections g !! p with
  | Some v =>
      match field "main" v with
      | Some (JArr (JArr es :: _)) => es
      | _ => []
      end
  | None => []
  end.

(** ** Auxiliary notions for the statements *)

(** The connection map once [pushEdge] has returned: the edge is appended to
    the edges of its source, a source without an entry getting a fresh one. *)
Definition withEdge (current : string) (conn : gmap string (list json))
    (p : parent) : gmap string (list json) :=
  <[parentKey p := default [] (conn !! parentKey p) ++ [edgeTo current]]> conn.

(** Source [p] has the edge [e] among its outgoing edges. *)
Definition hasEdge (conn : gmap string (list json)) (p : string) (e : json) : Prop :=
  ∃ es, conn !! p = Some es ∧ e ∈ es.

(** No id recorded for a step is the name of an inherited member. *)
Definition safeIds (m : gmap string string) : Prop :=
  map_Forall (λ _ v, v ∉ ObjectPrototype) m.

(** A node object as the renderer writes it; the manual trigger is the one
    node written without [parameters]. *)
Definition nodeLit (id name type : string) (parameters : option json) (x : Z) : json :=
  obj ([ ("id", JStr id); ("name", JStr name); ("type", JStr type);
         ("typeVersion", JNum 1) ]
       ++ match parameters with Some p => [("parameters", p)] | None => [] end
       ++ [ ("position", JArr [JNum x; JNum 300]) ]).

(** ** Sample plans *)

Definition httpStep : Step.t := Step.mk None "HTTP Request" ∅ None.

Definition samplePlan : Args.t :=
  Args.mk "sample" webhook None [httpStep; httpStep].

Definition sampleGraph : json :=
  obj [ ("nodes", JArr [
      obj [ ("id", JStr "1"); ("name", JStr "Webhook"); ("type", JStr "n8n-nodes-base.webhook");
            ("typeVersion", JNum 1);
            ("parameters", obj [("path", JStr "hook"); ("httpMethod", JStr "POST")]);
            ("position", JArr [JNum 280; JNum 300]) ];
      obj [ ("id", JStr "2"); ("name", JStr "HTTP Request");
            ("type", JStr "n8n-nodes-base.httpRequest"); ("typeVersion", JNum 1);
            ("parameters", obj []); ("position", JArr [JNum 500; JNum 300]) ];
      obj [ ("id", JStr "3"); ("name", JStr "HTTP Request");
            ("type", JStr "n8n-nodes-base.httpRequest"); ("typeVersion", JNum 1);
            ("parameters", obj []); ("position", JArr [JNum 720; JNum 300]) ] ]);
    ("connections",
     obj [ ("1", obj [("main", JArr [JArr [
                   obj [("node", JStr "2"); ("type", JStr "main"); ("index", JNum 0)]]])]);
           ("2", obj [("main", JArr [JArr [
                   obj [("node", JStr "3"); ("type", JStr "main"); ("index", JNum 0)]]])]) ]) ].

(** The parameters the cron trigger node is created with. *)
Definition everyMinute : json :=
  obj [("triggerFunctions", JArr [obj [("function", JStr "everyMinute")]])].

Definition webhookStep : Step.t :=
  Step.mk None "Webhook" (list_to_map [("path", JStr "orders")]) None.

(** A plan with a step of a type that has default parameters and a step of
    a type that has none. *)
Definition mergePlan : Args.t :=
  Args.mk "merge" manual None
    [ webhookStep;
      Step.mk None "HTTP Request" (list_to_map [("url", JStr "https://example.org")]) None ].

Definition mergeGraph : json :=
  obj [ ("nodes", JArr [
      nodeLit "1" "Manual Trigger" "n8n-nodes-base.manualTrigger" None 280;
      nodeLit "2" "Webhook" "n8n-nodes-base.webhook"
        (Some (obj [("path", JStr "orders"); ("httpMethod", JStr "POST")])) 500;
      nodeLit "3" "HTTP Request" "n8n-nodes-base.httpRequest"
        (Some (obj [("url", JStr "https://example.org")])) 720 ]);
    ("connections",
     obj [ ("1", obj [("main", JArr [JArr [
                   obj [("node", JStr "2"); ("type", JStr "main"); ("index", JNum 0)]]])]);
           ("2", obj [("main", JArr [JArr [
                   obj [("node", JStr "3"); ("type", JStr "main"); ("index", JNum 0)]]])]) ]) ].

(** A plan whose second step names its parents out of order. *)
Definition reorderedPlan : Args.t :=
  Args.mk "reordered" manual None
    [ Step.mk (Some "a") "HTTP Request" ∅ None;
      Step.mk (Some "b") "HTTP Request" ∅ (Some ["c"; "trigger"]);
      Step.mk (Some "c") "HTTP Request" ∅ None ].

Definition reorderedGraph : json :=
  obj [ ("nodes", JArr [
      nodeLit "1" "Manual Trigger" "n8n-nodes-base.manualTrigger" None 280;
      nodeLit "2" "HTTP Request" "n8n-nodes-base.httpRequest" (Some (obj [])) 500;
      nodeLit "3" "HTTP Request" "n8n-nodes-base.httpRequest" (Some (obj [])) 720;
      nodeLit "4" "HTTP Request" "n8n-nodes-base.httpRequest" (Some (obj [])) 940 ]);
    ("connections",
     obj [ ("1", obj [("main", JArr [JArr [
                   obj [("node", JStr "2"); ("type", JStr "main"); ("index", JNum 0)];
                   obj [("node", JStr "3"); ("type", JStr "main"); ("index", JNum 0)]]])]);
           ("3", obj [("main", JArr [JArr [
                   obj [("node", JStr "4"); ("type", JStr "main"); ("index", JNum 0)]]])]);
           ("4", obj [("main", JArr [JArr [
                   obj [("node", JStr "3"); ("type", JStr "main"); ("index", JNum 0)]]])]) ]) ].

(** Plans that reach a member inherited from [Object.prototype]: as the type
    of a step, and as a token of [dependsOn]. *)
Definition inheritedTypePlan : Args.t :=
  Args.mk "inherited-type" manual None [Step.mk None "constructor" ∅ None].

Definition inheritedTypePlan2 : Args.t :=
  Args.mk "inherited-type-twice" manual None
    [Step.mk None "toString" ∅ None; Step.mk None "toString" ∅ None].

Definition inheritedTokenPlan : Args.t :=
  Args.mk "inherited-token" manual None
    [Step.mk None "HTTP Request" ∅ (Some ["constructor"])].

Definition inheritedTokenGraph : json :=
  obj [ ("nodes", JArr [
      nodeLit "1" "Manual Trigger" "n8n-nodes-base.manualTrigger" None 280;
      nodeLit "2" "HTTP Request" "n8n-nodes-base.httpRequest" (Some (obj [])) 500 ]);
    ("connections",
     obj [ ("function Object() { [native code] }", obj [("main", JArr [JArr [
                   obj [("node", JStr "2"); ("type", JStr "main"); ("index", JNum 0)]]])]) ]) ].

(** ** Further notions for the statements *)

(** The key under which the step at index [i] is recorded in [idByStep]: its
    declared id, or its type and ordinal. *)
Definition keyAt (i : nat) (s : Step.t) : string := stepKey s (i + 2).

(** The character [-]. *)
Definition dash : Ascii.ascii :=
  Ascii.Ascii true false true true false true false false.

(** The character [c] occurs in [s]. *)
Fixpoint occurs (c : Ascii.ascii) (s : string) : Prop :=
  match s with
  | EmptyString => False
  | String a s' => a = c ∨ occurs c s'
  end.

(** Plans with a token that names no step. *)
Definition danglingPlan : Args.t :=
  Args.mk "dangling" manual None
    [ httpStep; Step.mk None "HTTP Request" ∅ (Some ["nowhere"]) ].

Definition danglingGraph : json :=
  obj [ ("nodes", JArr [
      nodeLit "1" "Manual Trigger" "n8n-nodes-base.manualTrigger" None 280;
      nodeLit "2" "HTTP Request" "n8n-nodes-base.httpRequest" (Some (obj [])) 500;
      nodeLit "3" "HTTP Request" "n8n-nodes-base.httpRequest" (Some (obj [])) 720 ]);
    ("connections",
     obj [ ("1", obj [("main", JArr [JArr [
                   obj [("node", JStr "2"); ("type", JStr "main"); ("index", JNum 0)]]])]);
           ("2", obj [("main", JArr [JArr [
                   obj [("node", JStr "3"); ("type", JStr "main"); ("index", JNum 0)]]])]) ]) ].

(** A plan whose steps declare no id and are named by type and ordinal. *)
Definition byOrdinalPlan : Args.t :=
  Args.mk "by-ordinal" manual None
    [ httpStep;
      Step.mk None "Webhook" ∅ None;
      Step.mk (Some "") "HTTP Request" ∅ (Some ["HTTP Request-2"]) ].

Definition byOrdinalGraph : json :=
  obj [ ("nodes", JArr [
      nodeLit "1" "Manual Trigger" "n8n-nodes-base.manualTrigger" None 280;
      nodeLit "2" "HTTP Request" "n8n-nodes-base.httpRequest" (Some (obj [])) 500;
      nodeLit "3" "Webhook" "n8n-nodes-base.webhook"
        (Some (obj [("path", JStr "hook"); ("httpMethod", JStr "POST")])) 720;
      nodeLit "4" "HTTP Request" "n8n-nodes-base.httpRequest" (Some (obj [])) 940 ]);
    ("connections",
     obj [ ("1", obj [("main", JArr [JArr [
                   obj [("node", JStr "2"); ("type", JStr "main"); ("index", JNum 0)]]])]);
           ("2", obj [("main", JArr [JArr [
                   obj [("node", JStr "3"); ("type", JStr "main"); ("index", JNum 0)];
                   obj [("node", JStr "4"); ("type", JStr "main"); ("index", JNum 0)]]])]) ]) ].

(** The edges held by an entry of [connections]: [v.main[0]]. *)
Definition edgesOf (v : json) : list json :=
  match field "main" v with
  | Some (JArr (JArr es :: _)) => es
  | _ => []
  end.

(** The number of edges of a graph, over all its sources. *)
Definition edgeCount (g : json) : nat :=
  sum_list_with (λ pv, length (edgesOf pv.2)) (map_to_list (graphConnections g)).

(** The same count on the map the connection loop works on. *)
Definition edgeTotal (conn : gmap string (list json)) : nat :=
  sum_list_with (λ pes, length pes.2) (map_to_list conn).

(** The number of parents of a step: its tokens, or one when it has none. *)
Definition parentCount (s : Step.t) : nat :=
  match Step.dependsOn s with
  | Some (k :: ks) => length (k :: ks)
  | _ => 1
  end.

(** Edges to the steps numbered [ts], all between 2 and [b], in
    non-decreasing order. *)
Definition targetsUpTo (b : nat) (es : list json) : Prop :=
  ∃ ts : list nat,
    es = (λ t, edgeTo (js_String t)) <$> ts ∧
    Forall (λ t, 2 ≤ t ≤ b)%nat ts ∧
    StronglySorted le ts.

(** Every id recorded for a step is that of a step node numbered at most [b]. *)
Definition idsUpTo (b : nat) (m : gmap string string) : Prop :=
  map_Forall (λ _ v, ∃ j : nat, (2 ≤ j ≤ b)%nat ∧ v = js_String j) m.

(** ** The catalog listing *)

(** The entries of [NODE_SPECS] in the order of the literal, which is the
    order [Object.entries] yields them in. *)
Definition NODE_SPECS_entries : list (string * NodeSpec.t) :=
  [ ("Manual Trigger", ManualTrigger_spec);
    ("Cron", Cron_spec);
    ("Webhook", Webhook_spec);
    ("HTTP Request", HTTPRequest_spec) ].

(** The handler of [list_node_specs]:
    [Object.entries(NODE_SPECS).map(([k, v]) => ({ name: k, type: v.type }))]. *)
Definition list_node_specs : list json :=
  (λ kv, obj [("name", JStr kv.1); ("type", JStr (NodeSpec.type kv.2))])
    <$> NODE_SPECS_entries.

(** ** Configuration *)

(** [s.replace(/\/$/, '')]: a slash at the very end of [s] is removed. *)
Fixpoint stripTrailingSlash (s : string) : string :=
  match s with
  | EmptyString => EmptyString
  | String c EmptyString => if bool_decide (String c EmptyString = "/") then EmptyString else s
  | String c s' => String c (stripTrailingSlash s')
  end.

Module Config.
Record t : Type := mk {
  N8N_URL : string;
  N8N_API_KEY : string;
}.
End Config.

(** The start of the module: [N8N_URL] is the environment's value without a
    trailing slash, and both values must be truthy. The arguments are the two
    environment variables, absent or set. *)
Definition loadConfig (env_N8N_URL env_N8N_API_KEY : option string) : result Config.t :=
  let N8N_URL := stripTrailingSlash <$> env_N8N_URL in
  match N8N_URL, env_N8N_API_KEY with
  | Some url, Some key =>
      if bool_decide (url = "") || bool_decide (key = "")
      then Throws "Error: Set N8N_URL and N8N_API_KEY in .env"
      else Returns (Config.mk url key)
  | _, _ => Throws "Error: Set N8N_URL and N8N_API_KEY in .env"
  end.

(** ** The n8n client and the tool handlers *)

(** What an awaited call ends in when it does not yield a value: a JavaScript
    error (a rejected [fetch] included), or the [MCPError] the client raises. *)
Inductive exn : Type :=
| JsError (message : string)
| MCPError (code message : string).

Inductive outcome (A : Type) : Type :=
| Done (a : A)
| Raised (e : exn).
Arguments Done {A} a.
Arguments Raised {A} e.

Definition ofResult {A : Type} (r : result A) : outcome A :=
  match r with
  | Returns a => Done a
  | Throws e => Raised (JsError e)
  end.

Module RequestInit.
(** The [init] argument of [n8n], as the handlers build it. *)
Record t : Type := mk {
  method : option string;
  body : option string;
  headers : option (gmap string string);
}.
End RequestInit.

Module Request.
(** A call of [fetch]: the URL and the options passed with it. *)
Record t : Type := mk {
  url : string;
  method : option string;
  body : option string;
  headers : gmap string string;
}.
End Request.

Module Response.
(** What the client reads of a response: [res.ok], [res.status], and what
    [res.text()] and [res.json()] resolve to. *)
Record t : Type := mk {
  ok : bool;
  status : nat;
  text : outcome string;
  json : outcome json;
}.
End Response.

(** What the code takes from its environment: the remote end behind [fetch],
    with a state of its own, and the built-ins [JSON.stringify], [JSON.parse]
    and the printing of a number. The values exchanged are those of [json],
    whose numbers are integers. *)
Class Runtime : Type := {
  World : Type;
  fetch : World → Request.t → World * outcome Response.t;
  JSON_stringify : json → string;
  JSON_parse : string → outcome json;
  Number_toString : Z → string;
}.

(** The state a handler runs in: the remote end, and the calls of [fetch]
    made so far. *)
Record Net `{Runtime} : Type := mkNet {
  world : World;
  sent : list Request.t;
}.
Arguments mkNet {_} _ _.

(** An asynchronous computation. *)
Definition IO `{Runtime} (A : Type) : Type := Net → Net * outcome A.

#[global] Instance IO_ret `{Runtime} : MRet IO := λ A a n, (n, Done a).

#[global] Instance IO_bind `{Runtime} : MBind IO :=
  λ A B k m n,
    match m n with
    | (n', Done a) => k a n'
    | (n', Raised e) => (n', Raised e)
    end.

Definition lift `{Runtime} {A : Type} (o : outcome A) : IO A := λ n, (n, o).

Definition fetchIO `{Runtime} (req : Request.t) : IO Response.t :=
  λ n, match fetch (world n) req with
       | (w, r) => (mkNet w (sent n ++ [req]), r)
       end.

(** A string of JavaScript is a sequence of UTF-16 code units, and [s[i]] is
    the one-unit string at index [i]. The strings of this development hold
    the text in UTF-8: a character of one, two or three bytes is one code
    unit; a character of four bytes is two, its high and low surrogate, each
    written here in the three bytes UTF-8 would give that code. A byte that
    starts no well-formed character is left as a unit of its own. *)
Definition surrogate (u : N) : string :=
  String.string_of_list_ascii
    [ Ascii.ascii_of_N (224 + u / 4096);
      Ascii.ascii_of_N (128 + (u / 64) mod 64);
      Ascii.ascii_of_N (128 + u mod 64) ]%N.

Fixpoint codeUnits (l : list Ascii.ascii) : list string :=
  match l with
  | [] => []
  | b0 :: l1 =>
      if (Ascii.N_of_ascii b0 <? 192)%N then String.string_of_list_ascii [b0] :: codeUnits l1
      else if (Ascii.N_of_ascii b0 <? 224)%N then
        match l1 with
        | b1 :: l2 => String.string_of_list_ascii [b0; b1] :: codeUnits l2
        | _ => String.string_of_list_ascii [b0] :: codeUnits l1
        end
      else if (Ascii.N_of_ascii b0 <? 240)%N then
        match l1 with
        | b1 :: b2 :: l3 => String.string_of_list_ascii [b0; b1; b2] :: codeUnits l3
        | _ => String.string_of_list_ascii [b0] :: codeUnits l1
        end
      else
        match l1 with
        | b1 :: b2 :: b3 :: l4 =>
            let point := (Ascii.N_of_ascii b0 mod 8 * 262144
                          + Ascii.N_of_ascii b1 mod 64 * 4096
                          + Ascii.N_of_ascii b2 mod 64 * 64
                          + Ascii.N_of_ascii b3 mod 64)%N in
            surrogate (55296 + (point - 65536) / 1024)
            :: surrogate (56320 + (point - 65536) mod 1024)
            :: codeUnits l4
        | _ => String.string_of_list_ascii [b0] :: codeUnits l1
        end
  end.

(** [{ ...v }]: the own enumerable properties of [v]: those of an object,
    the elements of an array under their indices, the code units of a string
    under theirs, and none for any other value. *)
Definition spread (v : json) : gmap string json :=
  match v with
  | JObj m => m
  | JArr l => list_to_map (imap (λ i x, (js_String i, x)) l)
  | JStr s =>
      list_to_map (imap (λ i u, (js_String i, JStr u))
                        (codeUnits (String.list_ascii_of_string s)))
  | _ => ∅
  end.

(** [`${v}`]: the string a value turns into in a template literal. An array
    joins its elements with commas, [null] and [undefined] elements giving
    the empty string; an object prints as [[object Object]] unless an own
    [toString] property, which is not callable, hides the inherited one. *)
Fixpoint ToString `{Runtime} (v : json) : outcome string :=
  match v with
  | JUndefined => Done "undefined"
  | JNull => Done "null"
  | JBool b => Done (if b then "true" else "false")
  | JNum n => Done (Number_toString n)
  | JStr s => Done s
  | JArr l =>
      (fix join (l : list json) : outcome string :=
         match l with
         | [] => Done ""
         | x :: l' =>
             match match x with
                   | JUndefined | JNull => Done ""
                   | _ => ToString x
                   end with
             | Raised e => Raised e
             | Done s =>
                 match l' with
                 | [] => Done s
                 | _ => match join l' with
                        | Raised e => Raised e
                        | Done r => Done (s +:+ "," +:+ r)
                        end
                 end
             end
         end) l
  | JObj m =>
      match m !! "toString" with
      | Some _ => Raised (JsError "TypeError: Cannot convert object to primitive value")
      | None => Done "[object Object]"
      end
  end.

(** [created.id] on what [res.json()] resolved to. *)
Definition created_id (created : json) : outcome json :=
  match created with
  | JUndefined =>
      Raised (JsError "TypeError: Cannot read properties of undefined (reading 'id')")
  | JNull => Raised (JsError "TypeError: Cannot read properties of null (reading 'id')")
  | JObj m => Done (default JUndefined (m !! "id"))
  | _ => Done JUndefined
  end.

(** The call [fetch] is made with: [`${N8N_URL}${path}`] and
    [{ ...init, headers: { 'Content-Type': ..., 'X-N8N-API-KEY': ...,
       ...(init.headers || {}) } }]. *)
Definition requestOf (cfg : Config.t) (path : string) (init : RequestInit.t)
  : Request.t :=
  Request.mk (Config.N8N_URL cfg +:+ path)
    (RequestInit.method init) (RequestInit.body init)
    (default ∅ (RequestInit.headers init)
     ∪ list_to_map [ ("Content-Type", "application/json");
                     ("X-N8N-API-KEY", Config.N8N_API_KEY cfg) ]).

Definition n8n `{Runtime} (cfg : Config.t) (path : string) (init : RequestInit.t)
  : IO json :=
  res ← fetchIO (requestOf cfg path init);
  if Response.ok res then lift (Response.json res)
  else
    text ← lift (Response.text res);
    lift (Raised (MCPError "server_error"
                    ("n8n " +:+ path +:+ " " +:+ js_String (Response.status res)
                     +:+ ": " +:+ text))).

Definition noInit : RequestInit.t := RequestInit.mk None None None.
Definition POST : RequestInit.t := RequestInit.mk (Some "POST") None None.
Definition DELETE : RequestInit.t := RequestInit.mk (Some "DELETE") None None.

(** [{ method: 'POST', body: JSON.stringify({ name, ...workflow }) }] *)
Definition createInit `{Runtime} (name workflow : json) : RequestInit.t :=
  RequestInit.mk (Some "POST")
    (Some (JSON_stringify (JObj (spread workflow ∪ {["name" := name]})))) None.

(** [await n8n(`/rest/workflows/${created.id}/activate`, { method: 'POST' })] *)
Definition activateCreated `{Runtime} (cfg : Config.t) (created : json) : IO json :=
  id ← lift (created_id created);
  s ← lift (ToString id);
  n8n cfg ("/rest/workflows/" +:+ s +:+ "/activate") POST.

Module CreateWorkflowArgs.
(** A parsed [CreateWorkflowArgs]: [workflow] is a string or an object. *)
Record t : Type := mk {
  name : string;
  workflow : string + gmap string json;
  activate : bool;
}.
End CreateWorkflowArgs.

(** The handler of [plan_workflow], on the plan [PlanArgs.parse] made of its
    input: the plan is returned as it is. *)
Definition plan_workflow `{Runtime} (plan : json) : IO json := mret plan.

(** The handler of [create_workflow], on its parsed arguments. *)
Definition create_workflow `{Runtime} (cfg : Config.t) (args : CreateWorkflowArgs.t)
  : IO json :=
  payload ← match CreateWorkflowArgs.workflow args with
            | inl s => lift (JSON_parse s)
            | inr m => mret (JObj m)
            end;
  created ← n8n cfg "/rest/workflows"
              (createInit (JStr (CreateWorkflowArgs.name args)) payload);
  if CreateWorkflowArgs.activate args
  then _ ← activateCreated cfg created; mret created
  else mret created.

(** The handler of [create_and_activate], on the [name] and [workflow] of its
    input. *)
Definition create_and_activate `{Runtime} (cfg : Config.t) (name workflow : json)
  : IO json :=
  created ← n8n cfg "/rest/workflows" (createInit name workflow);
  _ ← activateCreated cfg created;
  mret created.

(** The handlers of the operations on one workflow, on the [id] of their
    input, and of the listing, on its [limit] and [offset]. *)
Definition activate_workflow `{Runtime} (cfg : Config.t) (id : json) : IO json :=
  s ← lift (ToString id);
  _ ← n8n cfg ("/rest/workflows/" +:+ s +:+ "/activate") POST;
  mret (obj [("id", id); ("active", JBool true)]).

Definition deactivate_workflow `{Runtime} (cfg : Config.t) (id : json) : IO json :=
  s ← lift (ToString id);
  _ ← n8n cfg ("/rest/workflows/" +:+ s +:+ "/deactivate") POST;
  mret (obj [("id", id); ("active", JBool false)]).

Definition get_workflow `{Runtime} (cfg : Config.t) (id : json) : IO json :=
  s ← lift (ToString id);
  n8n cfg ("/rest/workflows/" +:+ s) noInit.

Definition list_workflows `{Runtime} (cfg : Config.t) (limit offset : json) : IO json :=
  l ← lift (ToString limit);
  o ← lift (ToString offset);
  n8n cfg ("/rest/workflows?limit=" +:+ l +:+ "&offset=" +:+ o) noInit.

Definition delete_workflow `{Runtime} (cfg : Config.t) (id : json) : IO json :=
  s ← lift (ToString id);
  _ ← n8n cfg ("/rest/workflows/" +:+ s) DELETE;
  mret (obj [("id", id); ("deleted", JBool true)]).

(** The handler of [compose_workflow], on its parsed arguments. *)
Definition compose_workflow `{Runtime} (cfg : Config.t) (args : Args.t) : IO json :=
  workflow ← lift (ofResult (renderWorkflow args));
  created ← n8n cfg "/rest/workflows" (createInit (JStr (Args.name args)) workflow);
  _ ← activateCreated cfg created;
  mret created.

(** Two remote ends to run the handlers against: one that accepts every call
    and answers [{ id: "7" }], one that refuses every call with status 401. *)
Definition acceptingRuntime : Runtime :=
  {| World := unit;
     fetch := λ w _, (w, Done (Response.mk true 200 (Done "{}")
                                (Done (obj [("id", JStr "7")]))));
     JSON_stringify := λ _, "{}";
     JSON_parse := λ _, Done (obj []);
     Number_toString := λ n, NilZero.string_of_int (Z.to_int n) |}.

Definition refusingRuntime : Runtime :=
  {| World := unit;
     fetch := λ w _, (w, Done (Response.mk false 401 (Done "unauthorized")
                                (Raised (JsError "SyntaxError"))));
     JSON_stringify := λ _, "{}";
     JSON_parse := λ _, Done (obj []);
     Number_toString := λ n, NilZero.string_of_int (Z.to_int n) |}.

Definition sampleConfig : Config.t := Config.mk "https://n8n.example" "secret".

(** What [n8n] makes of the way [fetch] ended: a rejection is passed on, an
    answer that is not [ok] becomes a [server_error], an [ok] answer is read
    as JSON. *)
Definition answered (path : string) (o : outcome Response.t) : outcome json :=
  match o with
  | Raised e => Raised e
  | Done res =>
      if Response.ok res then Response.json res
      else match Response.text res with
           | Raised e => Raised e
           | Done text =>
               Raised (MCPError "server_error"
                         ("n8n " +:+ path +:+ " " +:+ js_String (Response.status res)
                          +:+ ": " +:+ text))
           end
  end.

(** The request that creates a rendered graph under a name. *)
Definition createRequest `{Runtime} (cfg : Config.t) (name : string) (g : json)
  : Request.t :=
  requestOf cfg "/rest/workflows"
    (RequestInit.mk (Some "POST")
       (Some (JSON_stringify
                (obj [ ("name", JStr name); ("nodes", JArr (graphNodes g));
                       ("connections", JObj (graphConnections g)) ])))
       None).


(** A call of one of the eleven tools, with the input its handler works on:
    the parsed arguments where the handler parses its input, the properties it
    destructures otherwise. The parsed plan of [plan_workflow] is the value
    the handler hands back. *)
Inductive Call : Type :=
| ListNodeSpecs
| PlanWorkflow (plan : json)
| RenderWorkflow (args : Args.t)
| CreateWorkflow (args : CreateWorkflowArgs.t)
| CreateAndActivate (name workflow : json)
| ActivateWorkflow (id : json)
| DeactivateWorkflow (id : json)
| GetWorkflow (id : json)
| ListWorkflows (limit offset : json)
| DeleteWorkflow (id : json)
| ComposeWorkflow (args : Args.t).

Definition handle `{Runtime} (cfg : Config.t) (c : Call) : IO json :=
  match c with
  | ListNodeSpecs => mret (JArr list_node_specs)
  | PlanWorkflow plan => plan_workflow plan
  | RenderWorkflow args => lift (ofResult (renderWorkflow args))
  | CreateWorkflow args => create_workflow cfg args
  | CreateAndActivate name workflow => create_and_activate cfg name workflow
  | ActivateWorkflow id => activate_workflow cfg id
  | DeactivateWorkflow id => deactivate_workflow cfg id
  | GetWorkflow id => get_workflow cfg id
  | ListWorkflows limit offset => list_workflows cfg limit offset
  | DeleteWorkflow id => delete_workflow cfg id
  | ComposeWorkflow args => compose_workflow cfg args
  end.

(** A request to the configured server that carries the API key. *)
Definition authorized (cfg : Config.t) (q : Request.t) : Prop :=
  (∃ path, Request.url q = Config.N8N_URL cfg +:+ path) ∧
  Request.headers q !! "X-N8N-API-KEY" = Some (Config.N8N_API_KEY cfg) ∧
  Request.headers q !! "Content-Type" = Some "application/json".

(** A computation that makes at most [k] calls of [fetch], all of them
    authorized. *)
Definition sends `{Runtime} {A : Type} (cfg : Config.t) (k : nat) (m : IO A) : Prop :=
  ∀ n n' r, m n = (n', r) →
    ∃ reqs, sent n' = sent n ++ reqs ∧ (length reqs ≤ k)%nat ∧
            Forall (authorized cfg) reqs.


Example render_empty :
  renderWorkflow (Args.mk "w" manual None []) =
  Returns (obj [ ("nodes", JArr [triggerNode (Args.mk "w" manual None [])]);
                 ("connections", JObj ∅) ]).
Proof. reflexivity. Qed.

Example render_samplePlan : renderWorkflow samplePlan = Returns sampleGraph.
Proof. vm_compute. reflexivity. Qed.

(** ** The [result] monad *)

Lemma bind_Returns {A B : Type} (r : result A) (k : A → result B) (b : B) :
  r ≫= k = Returns b ↔ ∃ a, r = Returns a ∧ k a = Returns b.
Proof.
  destruct r as [a|e]; split.
  - intros H. by exists a.
  - by intros (a' & [= <-] & H).
  - intros H. discriminate H.
  - by intros (a' & [=] & _).
Qed.

Lemma bind_Throws {A B : Type} (r : result A) (k : A → result B) (e : string) :
  r = Throws e → r ≫= k = Throws e.
Proof. by intros ->. Qed.

Lemma foldM_app {S A : Type} (f : S → A → result S) (l1 l2 : list A) (s : S) :
  foldM f (l1 ++ l2) s = foldM f l1 s ≫= foldM f l2.
Proof.
  revert s. induction l1 as [|a l1 IH]; intros s; [done|].
  cbn [foldM app]. destruct (f s a) as [s'|e]; [apply IH | done].
Qed.

(** ** Strings of numbers, inherited names *)

Lemma to_uint_not_Nil (n : nat) : Nat.to_uint n ≠ Decimal.Nil.
Proof.
  intros H. pose proof (DecimalNat.Unsigned.to_of (Nat.to_uint n)) as E.
  rewrite DecimalNat.Unsigned.of_to in E. rewrite E in H.
  revert H. apply DecimalFacts.unorm_nonnil.
Qed.

Lemma js_String_digits (n : nat) :
  NilZero.uint_of_string (js_String n) = Some (Nat.to_uint n).
Proof. apply NilZero.usu, to_uint_not_Nil. Qed.

Lemma js_String_inj (n m : nat) : js_String n = js_String m → n = m.
Proof.
  intros H. apply DecimalNat.Unsigned.to_uint_inj.
  pose proof (js_String_digits n) as E.
  rewrite H, js_String_digits in E. congruence.
Qed.

Lemma js_String_not_inherited (n : nat) : js_String n ∉ ObjectPrototype.
Proof.
  intros H. pose proof (js_String_digits n) as E.
  unfold ObjectPrototype in H.
  repeat (apply elem_of_cons in H as [H|H]; [rewrite H in E; discriminate E|]).
  by apply elem_of_nil in H.
Qed.

Lemma js_String_nonempty (n : nat) : js_String n ≠ "".
Proof.
  intros H. pose proof (js_String_digits n) as E. rewrite H in E.
  discriminate E.
Qed.

Lemma inheritedKey_not_inherited (k : string) :
  k ∈ ObjectPrototype → inheritedKey k ∉ ObjectPrototype.
Proof.
  unfold ObjectPrototype at 1. intros H.
  repeat (apply elem_of_cons in H as [->|H];
          [by apply (bool_decide_unpack _); vm_compute |]).
  by apply elem_of_nil in H.
Qed.

Lemma catalog_not_inherited (k : string) :
  k ∈ ObjectPrototype → NODE_SPECS !! k = None.
Proof.
  unfold ObjectPrototype. intros H.
  repeat (apply elem_of_cons in H as [->|H]; [reflexivity |]).
  by apply elem_of_nil in H.
Qed.

(** ** Plain-object reads *)

Lemma get_Own {A : Type} (o : gmap string A) (k : string) (a : A) :
  get o k = Own a ↔ o !! k = Some a.
Proof.
  unfold get. destruct (o !! k) as [a'|].
  - split; by intros [= ->].
  - case_bool_decide; split; by intros [=].
Qed.

Lemma get_Inherited {A : Type} (o : gmap string A) (k m : string) :
  get o k = Inherited m ↔ o !! k = None ∧ k ∈ ObjectPrototype ∧ m = k.
Proof.
  unfold get. destruct (o !! k) as [a'|].
  - split; [by intros [=] | by intros ([=] & _)].
  - case_bool_decide.
    + split; [by intros [= ->] | by intros (_ & _ & ->)].
    + split; [by intros [=] | by intros (_ & Hk & _)].
Qed.

Lemma get_Undefined {A : Type} (o : gmap string A) (k : string) :
  get o k = Undefined ↔ o !! k = None ∧ k ∉ ObjectPrototype.
Proof.
  unfold get. destruct (o !! k) as [a'|].
  - split; [by intros [=] | by intros ([=] & _)].
  - case_bool_decide.
    + split; [by intros [=] | by intros (_ & Hk)].
    + by split.
Qed.

(** ** Catalog lookup *)

(** The lookup throws exactly on the names inherited from [Object.prototype]. *)
Lemma lookupSpec_Throws (t : string) :
  t ∈ ObjectPrototype →
  lookupSpec t =
    Throws "TypeError: Cannot read properties of undefined (reading 'parameters')".
Proof.
  intros H. unfold lookupSpec, get.
  rewrite (catalog_not_inherited t H). by rewrite bool_decide_eq_true_2.
Qed.

Lemma lookupSpec_known (t : string) (spec : NodeSpec.t) :
  NODE_SPECS !! t = Some spec → lookupSpec t = Returns spec.
Proof. intros H. unfold lookupSpec, get. by rewrite H. Qed.

Lemma lookupSpec_synthesized (t : string) :
  NODE_SPECS !! t = None → t ∉ ObjectPrototype →
  lookupSpec t = Returns (NodeSpec.mk t t (Defaults.mk None)).
Proof.
  intros H1 H2. unfold lookupSpec, get. rewrite H1.
  by rewrite bool_decide_eq_false_2.
Qed.

Lemma lookupSpec_Returns_iff (t : string) :
  (∃ spec, lookupSpec t = Returns spec) ↔ t ∉ ObjectPrototype.
Proof.
  split.
  - intros [spec H] Hin. by rewrite lookupSpec_Throws in H.
  - intros Hn. destruct (NODE_SPECS !! t) as [spec|] eqn:E.
    + exists spec. by apply lookupSpec_known.
    + eexists. by apply lookupSpec_synthesized.
Qed.

(** ** Phase 2: the step nodes *)

Lemma renderStep_Returns (st st' : StepState) (s : Step.t) :
  renderStep st s = Returns st' ↔
  ∃ spec, lookupSpec (Step.type s) = Returns spec ∧
    st' = {| order := S (order st);
             idByStep := set (idByStep st) (stepKey s (S (order st)))
                             (js_String (S (order st)));
             nodes := nodes st ++ [stepNode spec s (S (order st))] |}.
Proof.
  unfold renderStep. rewrite bind_Returns. split.
  - intros (spec & H1 & [= <-]). by exists spec.
  - intros (spec & H1 & ->). by exists spec.
Qed.

Lemma renderSteps_nodes (ss : list Step.t) (st st' : StepState) :
  foldM renderStep ss st = Returns st' →
  order st' = order st + length ss ∧
  length (nodes st') = length (nodes st) + length ss ∧
  (∀ i, i < length (nodes st) → nodes st' !! i = nodes st !! i) ∧
  (∀ i s, ss !! i = Some s →
     ∃ spec, lookupSpec (Step.type s) = Returns spec ∧
       nodes st' !! (length (nodes st) + i)
       = Some (stepNode spec s (order st + 1 + i))).
Proof.
  revert st. induction ss as [|s ss IH]; intros st H.
  - injection H as <-. cbn [length]. repeat split; try lia. intros i s H. done.
  - cbn [foldM] in H. apply bind_Returns in H as (st1 & H1 & H2).
    apply renderStep_Returns in H1 as (spec & Hspec & ->).
    apply IH in H2 as (Ho & Hl & Hpre & Hnew). cbn [order nodes] in *.
    rewrite length_app in *. cbn [length] in *.
    split; [lia|]. split; [lia|]. split.
    + intros i Hi. rewrite Hpre by lia. by rewrite lookup_app_l.
    + intros [|i] s' Hs'.
      * injection Hs' as <-. exists spec. split; [done|].
        rewrite Hpre by lia. rewrite Nat.add_0_r, lookup_app_r by lia.
        rewrite Nat.sub_diag. cbn. do 3 f_equal. lia.
      * cbn in Hs'. destruct (Hnew i s' Hs') as (spec' & E1 & E2).
        exists spec'. split; [done|].
        replace (length (nodes st) + S i) with (length (nodes st) + 1 + i) by lia.
        rewrite E2. do 2 f_equal. lia.
Qed.

Lemma set_safeIds (m : gmap string string) (k : string) (n : nat) :
  safeIds m → safeIds (set m k (js_String n)).
Proof.
  intros H. unfold set. case_bool_decide; [done|].
  apply map_Forall_insert_2; [apply js_String_not_inherited | done].
Qed.

Lemma renderSteps_safeIds (ss : list Step.t) (st st' : StepState) :
  foldM renderStep ss st = Returns st' →
  safeIds (idByStep st) → safeIds (idByStep st').
Proof.
  revert st. induction ss as [|s ss IH]; intros st H Hsafe.
  - by injection H as <-.
  - cbn [foldM] in H. apply bind_Returns in H as (st1 & H1 & H2).
    apply renderStep_Returns in H1 as (spec & _ & ->).
    apply (IH _ H2). cbn [idByStep]. by apply set_safeIds.
Qed.

(** Phase 2 returns exactly when no step is typed with an inherited name. *)
Lemma renderSteps_Returns_iff (ss : list Step.t) (st : StepState) :
  (∃ st', foldM renderStep ss st = Returns st') ↔
  Forall (λ s, Step.type s ∉ ObjectPrototype) ss.
Proof.
  revert st. induction ss as [|s ss IH]; intros st.
  - split; [constructor | by exists st].
  - cbn [foldM]. split.
    + intros [st' H]. apply bind_Returns in H as (st1 & H1 & H2).
      apply renderStep_Returns in H1 as (spec & Hspec & ->).
      constructor.
      * apply lookupSpec_Returns_iff. by exists spec.
      * eapply IH. by exists st'.
    + intros H. apply Forall_cons in H as [H1 H2].
      apply lookupSpec_Returns_iff in H1 as [spec Hspec].
      apply (IH {| order := S (order st);
                   idByStep := set (idByStep st) (stepKey s (S (order st)))
                                   (js_String (S (order st)));
                   nodes := nodes st ++ [stepNode spec s (S (order st))] |})
        in H2 as [st' H2].
      exists st'. apply bind_Returns. eexists. split; [|exact H2].
      apply renderStep_Returns. by exists spec.
Qed.

(** ** Phase 3: the connections *)

Lemma pushEdge_Returns (current : string) (conn conn' : gmap string (list json))
    (p : parent) :
  pushEdge current conn p = Returns conn' → conn' = withEdge current conn p.
Proof.
  unfold pushEdge, withEdge.
  destruct (get conn (parentKey p)) as [es|m|] eqn:E; intros [= <-].
  - apply get_Own in E. by rewrite E.
  - apply get_Undefined in E as [E _]. by rewrite E.
Qed.

Lemma pushEdge_safe (current : string) (conn : gmap string (list json)) (p : parent) :
  parentKey p ∉ ObjectPrototype →
  pushEdge current conn p = Returns (withEdge current conn p).
Proof.
  intros Hsafe. unfold pushEdge, withEdge, get.
  destruct (conn !! parentKey p) as [es|]; [done|].
  by rewrite bool_decide_eq_false_2.
Qed.

Lemma pushEdges_Returns (current : string) (ps : list parent)
    (conn conn' : gmap string (list json)) :
  foldM (pushEdge current) ps conn = Returns conn' →
  conn' = foldl (withEdge current) conn ps.
Proof.
  revert conn. induction ps as [|p ps IH]; intros conn H.
  - by injection H as <-.
  - cbn [foldM] in H. apply bind_Returns in H as (c1 & H1 & H2).
    apply pushEdge_Returns in H1 as ->. by apply IH.
Qed.

Lemma pushEdges_safe (current : string) (ps : list parent)
    (conn : gmap string (list json)) :
  Forall (λ p, parentKey p ∉ ObjectPrototype) ps →
  foldM (pushEdge current) ps conn = Returns (foldl (withEdge current) conn ps).
Proof.
  revert conn. induction ps as [|p ps IH]; intros conn H; [done|].
  apply Forall_cons in H as [H1 H2].
  cbn [foldM foldl]. rewrite (pushEdge_safe _ _ _ H1). by apply IH.
Qed.

Lemma resolveParent_safe (idx : gmap string string) (prev k : string) :
  safeIds idx → prev ∉ ObjectPrototype →
  parentKey (resolveParent idx prev k) ∉ ObjectPrototype.
Proof.
  intros Hidx Hprev. unfold resolveParent.
  case_bool_decide; [apply (js_String_not_inherited 1)|].
  destruct (get idx k) as [v|m|] eqn:E; cbn [parentKey].
  - apply get_Own in E. unfold orElse. case_bool_decide; [done|].
    by apply (Hidx k v).
  - apply get_Inherited in E as (_ & E & ->). by apply inheritedKey_not_inherited.
  - done.
Qed.

Lemma parentsOf_safe (idx : gmap string string) (prev : string) (s : Step.t) :
  safeIds idx → prev ∉ ObjectPrototype →
  Forall (λ p, parentKey p ∉ ObjectPrototype) (parentsOf idx prev s).
Proof.
  intros Hidx Hprev. unfold parentsOf.
  destruct (Step.dependsOn s) as [[|k ks]|].
  - by repeat constructor.
  - apply Forall_fmap, Forall_forall. intros k' _.
    by apply resolveParent_safe.
  - by repeat constructor.
Qed.

Lemma parentsOf_nonempty (idx : gmap string string) (prev : string) (s : Step.t) :
  parentsOf idx prev s ≠ [].
Proof. unfold parentsOf. by destruct (Step.dependsOn s) as [[|k ks]|]. Qed.

Lemma connectStep_Returns (idx : gmap string string) (i : nat)
    (st st' : ConnState) (s : Step.t) :
  connectStep idx i st s = Returns st' →
  st' = {| prev := js_String (i + 2);
           connections := foldl (withEdge (js_String (i + 2))) (connections st)
                                (parentsOf idx (prev st) s) |}.
Proof.
  unfold connectStep. intros H. apply bind_Returns in H as (c & H1 & [= <-]).
  by apply pushEdges_Returns in H1 as ->.
Qed.

Lemma connectStep_safe (idx : gmap string string) (i : nat)
    (st : ConnState) (s : Step.t) :
  safeIds idx → prev st ∉ ObjectPrototype →
  connectStep idx i st s =
  Returns {| prev := js_String (i + 2);
             connections := foldl (withEdge (js_String (i + 2))) (connections st)
                                  (parentsOf idx (prev st) s) |}.
Proof.
  intros Hidx Hprev. unfold connectStep.
  by rewrite (pushEdges_safe _ _ _ (parentsOf_safe _ _ s Hidx Hprev)).
Qed.

Lemma connectFrom_app (idx : gmap string string) (i : nat)
    (l1 l2 : list Step.t) (st : ConnState) :
  connectFrom idx i (l1 ++ l2) st
  = connectFrom idx i l1 st ≫= connectFrom idx (i + length l1) l2.
Proof.
  revert i st. induction l1 as [|s l1 IH]; intros i st.
  - cbn. by rewrite Nat.add_0_r.
  - cbn [connectFrom app length].
    destruct (connectStep idx i st s) as [st1|e]; [|done]. cbn.
    rewrite IH. do 2 f_equal. lia.
Qed.

(** Phase 3 cannot throw: every key it uses is a node id or the text of an
    inherited member, never the name of one. *)
Lemma connectFrom_safe (idx : gmap string string) (ss : list Step.t) (i : nat)
    (st : ConnState) :
  safeIds idx → prev st ∉ ObjectPrototype →
  ∃ c, connectFrom idx i ss st = Returns c.
Proof.
  intros Hidx. revert i st. induction ss as [|s ss IH]; intros i st Hprev.
  - by exists st.
  - cbn [connectFrom]. rewrite (connectStep_safe _ _ _ _ Hidx Hprev). cbn.
    apply IH. cbn. apply js_String_not_inherited.
Qed.

(** The cursor after the loop: the id of the last step processed. *)
Lemma connectFrom_prev (idx : gmap string string) (ss : list Step.t) (i : nat)
    (st c : ConnState) :
  connectFrom idx i ss st = Returns c →
  prev c = match ss with [] => prev st | _ => js_String (i + length ss + 1) end.
Proof.
  revert i st. induction ss as [|s ss IH]; intros i st H.
  - by injection H as <-.
  - cbn [connectFrom] in H. apply bind_Returns in H as (st1 & H1 & H2).
    apply connectStep_Returns in H1 as ->.
    apply IH in H2 as ->. destruct ss as [|s' ss]; cbn [prev length].
    + f_equal. lia.
    + f_equal. lia.
Qed.

Lemma withEdge_mono (current : string) (conn : gmap string (list json))
    (q : parent) (p : string) (e : json) :
  hasEdge conn p e → hasEdge (withEdge current conn q) p e.
Proof.
  intros (es & H1 & H2). unfold withEdge, hasEdge.
  destruct (decide (parentKey q = p)) as [->|Hne].
  - rewrite lookup_insert_eq, H1. eexists. split; [done|].
    apply elem_of_app. by left.
  - rewrite lookup_insert_ne by done. by exists es.
Qed.

Lemma withEdge_new (current : string) (conn : gmap string (list json)) (q : parent) :
  hasEdge (withEdge current conn q) (parentKey q) (edgeTo current).
Proof.
  unfold withEdge, hasEdge. rewrite lookup_insert_eq. eexists. split; [done|].
  apply elem_of_app. right. by apply list_elem_of_singleton.
Qed.

Lemma withEdges_mono (current : string) (ps : list parent)
    (conn : gmap string (list json)) (p : string) (e : json) :
  hasEdge conn p e → hasEdge (foldl (withEdge current) conn ps) p e.
Proof.
  revert conn. induction ps as [|q ps IH]; intros conn H; [done|].
  cbn [foldl]. by apply IH, withEdge_mono.
Qed.

Lemma withEdges_new (current : string) (ps : list parent)
    (conn : gmap string (list json)) (q : parent) :
  q ∈ ps → hasEdge (foldl (withEdge current) conn ps) (parentKey q) (edgeTo current).
Proof.
  revert conn. induction ps as [|q' ps IH]; intros conn H.
  - by apply elem_of_nil in H.
  - cbn [foldl]. apply elem_of_cons in H as [->|H].
    + apply withEdges_mono, withEdge_new.
    + by apply IH.
Qed.

Lemma connectFrom_mono (idx : gmap string string) (ss : list Step.t) (i : nat)
    (st c : ConnState) (p : string) (e : json) :
  connectFrom idx i ss st = Returns c →
  hasEdge (connections st) p e → hasEdge (connections c) p e.
Proof.
  revert i st. induction ss as [|s ss IH]; intros i st H He.
  - by injection H as <-.
  - cbn [connectFrom] in H. apply bind_Returns in H as (st1 & H1 & H2).
    apply connectStep_Returns in H1 as ->.
    apply (IH _ _ H2). cbn [connections]. by apply withEdges_mono.
Qed.

(** ** Reading what the renderer wrote *)

Lemma field_obj6 (k1 k2 k3 k4 k5 k6 : string) (v1 v2 v3 v4 v5 v6 : json) (k : string) :
  field k (obj [(k1, v1); (k2, v2); (k3, v3); (k4, v4); (k5, v5); (k6, v6)])
  = if decide (k1 = k) then Some v1 else if decide (k2 = k) then Some v2
    else if decide (k3 = k) then Some v3 else if decide (k4 = k) then Some v4
    else if decide (k5 = k) then Some v5 else if decide (k6 = k) then Some v6
    else None.
Proof.
  unfold field, obj. cbn [list_to_map foldr uncurry fst snd].
  repeat (rewrite lookup_insert; case_decide; [done|]). apply lookup_empty.
Qed.

Lemma stepNode_fields (spec : NodeSpec.t) (s : Step.t) (k : nat) :
  field "id" (stepNode spec s k) = Some (JStr (js_String k)) ∧
  field "name" (stepNode spec s k) = Some (JStr (Step.type s)) ∧
  field "type" (stepNode spec s k) = Some (JStr (NodeSpec.type spec)) ∧
  field "typeVersion" (stepNode spec s k) = Some (JNum 1) ∧
  field "parameters" (stepNode spec s k) = Some (JObj (mergeParameters spec s)) ∧
  field "position" (stepNode spec s k) = Some (nextPos (Z.of_nat k - 1)).
Proof. unfold stepNode. by rewrite !field_obj6. Qed.

Lemma triggerNode_id_position (args : Args.t) :
  field "id" (triggerNode args) = Some (JStr "1") ∧
  field "position" (triggerNode args) = Some (JArr [JNum 280; JNum 300]).
Proof.
  unfold triggerNode. destruct (Args.trigger args); [done| |done].
  destruct (Args.cron args) as [c|]; [case_bool_decide|]; done.
Qed.

Lemma render_Returns (args : Args.t) (g : json) :
  renderWorkflow args = Returns g ↔
  ∃ st c,
    foldM renderStep (Args.steps args) (initSteps args) = Returns st ∧
    connectFrom (idByStep st) 0 (Args.steps args) initConn = Returns c ∧
    g = obj [ ("nodes", JArr (nodes st));
              ("connections", JObj (fanout <$> connections c)) ].
Proof.
  unfold renderWorkflow. rewrite bind_Returns. split.
  - intros (st & H1 & H2). apply bind_Returns in H2 as (c & H2 & [= <-]).
    by exists st, c.
  - intros (st & c & H1 & H2 & ->). exists st. split; [done|].
    apply bind_Returns. by exists c.
Qed.

Lemma graphNodes_obj (ns : list json) (c : gmap string json) :
  graphNodes (obj [("nodes", JArr ns); ("connections", JObj c)]) = ns.
Proof. reflexivity. Qed.

Lemma graphConnections_obj (ns : list json) (c : gmap string json) :
  graphConnections (obj [("nodes", JArr ns); ("connections", JObj c)]) = c.
Proof. reflexivity. Qed.

Lemma outgoing_obj (ns : list json) (conn : gmap string (list json)) (p : string) :
  outgoing (obj [("nodes", JArr ns); ("connections", JObj (fanout <$> conn))]) p
  = default [] (conn !! p).
Proof.
  unfold outgoing. rewrite graphConnections_obj, lookup_fmap.
  by destruct (conn !! p).
Qed.

(** [renderWorkflow] returns a graph exactly when no step is typed with a
    name inherited from [Object.prototype]; otherwise it throws. *)
Lemma render_Returns_iff (args : Args.t) :
  (∃ g, renderWorkflow args = Returns g) ↔
  Forall (λ s, Step.type s ∉ ObjectPrototype) (Args.steps args).
Proof.
  rewrite <- (renderSteps_Returns_iff _ (initSteps args)). split.
  - intros [g H]. apply render_Returns in H as (st & _ & H & _). by exists st.
  - intros [st H].
    destruct (connectFrom_safe (idByStep st) (Args.steps args) 0 initConn) as [c Hc].
    + apply (renderSteps_safeIds _ _ _ H). apply map_Forall_empty.
    + apply (js_String_not_inherited 1).
    + eexists. apply render_Returns. by exists st, c.
Qed.

(** The nodes of a rendered graph: the trigger node, then one node per step,
    the step at index [i] numbered [i + 2]. *)
Lemma render_nodes (args : Args.t) (g : json) :
  renderWorkflow args = Returns g →
  graphNodes g !! 0 = Some (triggerNode args) ∧
  length (graphNodes g) = length (Args.steps args) + 1 ∧
  (∀ i s, Args.steps args !! i = Some s →
     ∃ spec, lookupSpec (Step.type s) = Returns spec ∧
       graphNodes g !! (i + 1) = Some (stepNode spec s (i + 2))).
Proof.
  intros H. apply render_Returns in H as (st & c & H1 & _ & ->).
  rewrite graphNodes_obj.
  apply renderSteps_nodes in H1 as (_ & Hl & Hpre & Hnew). cbn in Hl, Hpre, Hnew.
  split; [by apply Hpre; lia|]. split; [lia|].
  intros i s Hs. destruct (Hnew i s Hs) as (spec & E1 & E2).
  exists spec. split; [done|].
  replace (i + 1) with (S i) by lia. rewrite E2. do 2 f_equal. lia.
Qed.

(** ** Identifiers and positions *)

(** C8: in every rendered graph the trigger node has id "1" and position
    (280, 300), and the step of ordinal [k] (steps are numbered from 2 in input
    order) has the decimal string of [k] as id and position
    (280 + 220 * (k - 1), 300). *)
Theorem C8_ids_and_positions (args : Args.t) (g : json) :
  renderWorkflow args = Returns g →
  (∃ n, graphNodes g !! 0 = Some n ∧
        field "id" n = Some (JStr "1") ∧
        field "position" n = Some (JArr [JNum 280; JNum 300])) ∧
  (∀ (k : nat) (s : Step.t), (2 ≤ k)%nat → Args.steps args !! (k - 2) = Some s →
     ∃ n, graphNodes g !! (k - 1) = Some n ∧
          field "id" n = Some (JStr (js_String k)) ∧
          field "position" n
          = Some (JArr [JNum (280 + 220 * (Z.of_nat k - 1)); JNum 300])).
Proof.
  intros H. apply render_nodes in H as (H0 & _ & Hs). split.
  - exists (triggerNode args). split; [done|]. apply triggerNode_id_position.
  - intros k s Hk Hks. destruct (Hs _ _ Hks) as (spec & _ & Hn).
    replace (k - 2 + 1) with (k - 1) in Hn by lia.
    replace (k - 2 + 2) with k in Hn by lia.
    exists (stepNode spec s k). split; [done|].
    destruct (stepNode_fields spec s k) as (Hid & _ & _ & _ & _ & Hpos).
    split; [done|]. rewrite Hpos. unfold nextPos. do 4 f_equal. lia.
Qed.

Lemma C8_ids_and_positions_witness :
  renderWorkflow samplePlan = Returns sampleGraph ∧
  ∃ n, graphNodes sampleGraph !! 2 = Some n ∧
       field "id" n = Some (JStr "3") ∧
       field "position" n = Some (JArr [JNum 720; JNum 300]).
Proof.
  assert (renderWorkflow samplePlan = Returns sampleGraph) as H
    by (vm_compute; reflexivity).
  split; [exact H|].
  exact (proj2 (C8_ids_and_positions samplePlan sampleGraph H) 3 httpStep
           (le_S 2 2 (le_n 2)) eq_refl).
Defined.

(** ** The cron trigger *)

Lemma triggerNode_cron_default (args : Args.t) :
  Args.trigger args = cron →
  Args.cron args = None ∨ Args.cron args = Some "" →
  field "parameters" (triggerNode args) = Some everyMinute.
Proof.
  unfold triggerNode. intros -> [-> | ->]; reflexivity.
Qed.

Lemma triggerNode_cron_rule (args : Args.t) (e : string) :
  Args.trigger args = cron → Args.cron args = Some e → e ≠ "" →
  field "parameters" (triggerNode args) = Some (obj [("rule", JStr e)]).
Proof.
  unfold triggerNode. intros -> -> He.
  rewrite bool_decide_eq_false_2 by done. reflexivity.
Qed.

(** C10: with the cron trigger and no cron expression, the trigger node of
    the rendered graph carries the hard-coded every-minute parameters, which
    are not the (absent, hence empty) default parameters of the catalog's
    Cron entry. *)
Theorem C10_cron_without_expression (args : Args.t) (g : json) :
  Args.trigger args = cron → Args.cron args = None →
  renderWorkflow args = Returns g →
  ∃ n, graphNodes g !! 0 = Some n ∧
       field "parameters" n
       = Some (obj [("triggerFunctions", JArr [obj [("function", JStr "everyMinute")]])]) ∧
       NODE_SPECS !! "Cron" = Some Cron_spec ∧
       Defaults.parameters (NodeSpec.defaults Cron_spec) = None ∧
       field "parameters" n
       ≠ Some (JObj (default ∅ (Defaults.parameters (NodeSpec.defaults Cron_spec)))).
Proof.
  intros Ht Hc H. apply render_nodes in H as (H0 & _).
  exists (triggerNode args). split; [done|].
  rewrite (triggerNode_cron_default args Ht (or_introl Hc)).
  split; [done|]. split; [done|]. split; [done|].
  by intros [=].
Qed.

Lemma C10_cron_without_expression_witness :
  ∃ n, graphNodes (obj [ ("nodes", JArr [triggerNode (Args.mk "w" cron None [])]);
                         ("connections", JObj ∅) ]) !! 0 = Some n ∧
       field "parameters" n
       = Some (obj [("triggerFunctions", JArr [obj [("function", JStr "everyMinute")]])]) ∧
       NODE_SPECS !! "Cron" = Some Cron_spec ∧
       Defaults.parameters (NodeSpec.defaults Cron_spec) = None ∧
       field "parameters" n
       ≠ Some (JObj (default ∅ (Defaults.parameters (NodeSpec.defaults Cron_spec)))).
Proof.
  apply (C10_cron_without_expression (Args.mk "w" cron None [])); reflexivity.
Defined.

(** C6, as stated, fails on a cron expression that is present but empty:
    [if (args.cron)] treats the empty string as absent, and the trigger keeps
    the every-minute parameters. *)
Lemma C6_counterexample :
  ∃ g n, renderWorkflow (Args.mk "w" cron (Some "") []) = Returns g ∧
         graphNodes g !! 0 = Some n ∧
         field "parameters" n = Some everyMinute ∧
         field "parameters" n ≠ Some (obj [("rule", JStr "")]).
Proof.
  eexists _, _. split; [reflexivity|]. split; [reflexivity|].
  split; [reflexivity|]. by intros [=].
Qed.

(** C6 (amended): with the cron trigger and a cron expression that is
    present and not the empty string, the trigger node's parameters are
    exactly [{ rule: cronExpression }]: [rule] is the only key, and nothing of
    the parameters the node was created with remains. *)
Theorem C6_cron_rule_replaces (args : Args.t) (e : string) (g : json) :
  Args.trigger args = cron → Args.cron args = Some e → e ≠ "" →
  renderWorkflow args = Returns g →
  ∃ n p, graphNodes g !! 0 = Some n ∧
         field "parameters" n = Some p ∧
         p = obj [("rule", JStr e)] ∧
         keys p = {["rule"]} ∧
         field "triggerFunctions" p = None.
Proof.
  intros Ht Hc He H. apply render_nodes in H as (H0 & _).
  exists (triggerNode args), (obj [("rule", JStr e)]). split; [done|].
  split; [by apply triggerNode_cron_rule|]. split; [done|].
  split; [|reflexivity].
  unfold keys, obj. cbn [list_to_map foldr uncurry fst snd].
  by rewrite insert_empty, dom_singleton_L.
Qed.

Lemma C6_cron_rule_replaces_witness :
  ∃ n p, graphNodes (obj [ ("nodes", JArr [triggerNode (Args.mk "w" cron (Some "0 * * * *") [])]);
                           ("connections", JObj ∅) ]) !! 0 = Some n ∧
         field "parameters" n = Some p ∧
         p = obj [("rule", JStr "0 * * * *")] ∧
         keys p = {["rule"]} ∧
         field "triggerFunctions" p = None.
Proof.
  apply (C6_cron_rule_replaces (Args.mk "w" cron (Some "0 * * * *") []) "0 * * * *");
    [reflexivity | reflexivity | discriminate | reflexivity].
Defined.

(** ** Parameters of a step node *)

(** The entry the lookup returns: the catalog's, or the one made of the type. *)
Lemma lookupSpec_catalog (t : string) (spec : NodeSpec.t) :
  lookupSpec t = Returns spec →
  spec = match NODE_SPECS !! t with
         | Some entry => entry
         | None => NodeSpec.mk t t (Defaults.mk None)
         end.
Proof.
  unfold lookupSpec, get. destruct (NODE_SPECS !! t) as [entry|].
  - by intros [= <-].
  - case_bool_decide; [done|]. by intros [= <-].
Qed.

(** "Webhook" is the one catalog name with default parameters. *)
Lemma catalog_defaults (t : string) :
  t ≠ "Webhook" →
  default ∅ (Defaults.parameters
               (NodeSpec.defaults match NODE_SPECS !! t with
                                  | Some entry => entry
                                  | None => NodeSpec.mk t t (Defaults.mk None)
                                  end)) = ∅.
Proof.
  intros Ht. destruct (NODE_SPECS !! t) as [entry|] eqn:E; [|done].
  unfold NODE_SPECS in E. cbn [list_to_map foldr uncurry fst snd] in E.
  repeat (apply lookup_insert_Some in E as [[<- <-]|[_ E]]; [done|]).
  by rewrite lookup_empty in E.
Qed.

Lemma mergeParameters_lookup (spec : NodeSpec.t) (s : Step.t) (k : string) :
  mergeParameters spec s !! k
  = match Step.parameters s !! k with
    | Some v => Some v
    | None => default ∅ (Defaults.parameters (NodeSpec.defaults spec)) !! k
    end.
Proof.
  unfold mergeParameters. rewrite lookup_union.
  destruct (Step.parameters s !! k) as [v|];
    by destruct (default ∅ (Defaults.parameters (NodeSpec.defaults spec)) !! k).
Qed.

(** C4: the parameters of the node rendered for a step are the default
    parameters of the catalog entry of the step's type, overlaid with the
    step's parameters: a key of the step carries the step's value whatever the
    default holds (values are replaced whole, not merged), any other key
    carries the value of the entry found in [NODE_SPECS] under the step's
    type, if there is one. So a step typed "Webhook" gets [path] and
    [httpMethod] where it does not set them, and a step of any other type gets
    its own parameters only. Defaults [{a:1,b:2}] and step parameters
    [{b:3,c:4}] give exactly [{a:1,b:3,c:4}]. *)
Theorem C4_parameter_merge (args : Args.t) (g : json) (i : nat) (s : Step.t) :
  renderWorkflow args = Returns g →
  Args.steps args !! i = Some s →
  (∃ n m,
      graphNodes g !! (i + 1) = Some n ∧
      field "parameters" n = Some (JObj m) ∧
      (∀ k, m !! k
            = match Step.parameters s !! k with
              | Some v => Some v
              | None =>
                  match NODE_SPECS !! Step.type s with
                  | Some entry =>
                      default ∅ (Defaults.parameters (NodeSpec.defaults entry)) !! k
                  | None => None
                  end
              end) ∧
      (Step.type s = "Webhook" →
       m = Step.parameters s
           ∪ list_to_map [("path", JStr "hook"); ("httpMethod", JStr "POST")]) ∧
      (Step.type s ≠ "Webhook" → m = Step.parameters s)) ∧
  (∀ name type id deps,
      mergeParameters
        (NodeSpec.mk name type
           (Defaults.mk (Some (list_to_map [("a", JNum 1); ("b", JNum 2)]))))
        (Step.mk id name (list_to_map [("b", JNum 3); ("c", JNum 4)]) deps)
      = list_to_map [("a", JNum 1); ("b", JNum 3); ("c", JNum 4)]).
Proof.
  intros H Hs. split; [|reflexivity].
  apply render_nodes in H as (_ & _ & Hn).
  destruct (Hn i s Hs) as (spec & Hspec & Hnode).
  exists (stepNode spec s (i + 2)), (mergeParameters spec s).
  split; [done|]. split; [apply stepNode_fields|].
  apply lookupSpec_catalog in Hspec as ->.
  split; [|split].
  - intros k. rewrite mergeParameters_lookup.
    destruct (Step.parameters s !! k); [done|].
    by destruct (NODE_SPECS !! Step.type s).
  - by intros ->.
  - intros Hty. unfold mergeParameters.
    rewrite (catalog_defaults (Step.type s)) by done. apply map_union_empty.
Qed.

Lemma C4_parameter_merge_witness :
  renderWorkflow mergePlan = Returns mergeGraph ∧
  (∃ n, graphNodes mergeGraph !! 1 = Some n ∧
        field "parameters" n
        = Some (obj [("path", JStr "orders"); ("httpMethod", JStr "POST")])) ∧
  (∃ n, graphNodes mergeGraph !! 2 = Some n ∧
        field "parameters" n = Some (obj [("url", JStr "https://example.org")])).
Proof.
  assert (renderWorkflow mergePlan = Returns mergeGraph) as H
    by (vm_compute; reflexivity).
  split; [exact H|]. split.
  - destruct (proj1 (C4_parameter_merge mergePlan mergeGraph 0 webhookStep H eq_refl))
      as (n & m & Hn & Hp & _ & Hweb & _).
    exists n. split; [exact Hn|]. rewrite Hp, (Hweb eq_refl). reflexivity.
  - destruct (proj1 (C4_parameter_merge mergePlan mergeGraph 1
                       (Step.mk None "HTTP Request"
                          (list_to_map [("url", JStr "https://example.org")]) None)
                       H eq_refl))
      as (n & m & Hn & Hp & _ & _ & Hother).
    exists n. split; [exact Hn|]. rewrite Hp, (Hother ltac:(discriminate)).
    reflexivity.
Defined.

(** ** Default linking *)

Lemma parentsOf_default (idx : gmap string string) (prev : string) (s : Step.t) :
  Step.dependsOn s = None ∨ Step.dependsOn s = Some [] →
  parentsOf idx prev s = [PId prev].
Proof. unfold parentsOf. by intros [-> | ->]. Qed.

(** Steps without [dependsOn], processed from index [i] with the cursor on
    the node numbered [i + 1]: every one of them is linked from the node
    before it, and no other source is touched. *)
Lemma connectFrom_chain (idx : gmap string string) (ss : list Step.t) (i : nat)
    (conn : gmap string (list json)) (c : ConnState) :
  Forall (λ s, Step.dependsOn s = None) ss →
  (∀ j, (i < j)%nat → conn !! js_String j = None) →
  connectFrom idx i ss {| prev := js_String (i + 1); connections := conn |} = Returns c →
  (∀ j, (j < length ss)%nat →
        connections c !! js_String (i + 1 + j) = Some [edgeTo (js_String (i + 2 + j))]) ∧
  (∀ k, (∀ j, (j < length ss)%nat → k ≠ js_String (i + 1 + j)) →
        connections c !! k = conn !! k).
Proof.
  revert i conn. induction ss as [|s ss IH]; intros i conn Hdeps Hfresh H.
  - injection H as <-. split. { intros j Hj. cbn in Hj. lia. } done.
  - apply Forall_cons in Hdeps as [Hs Hdeps].
    cbn [connectFrom] in H. apply bind_Returns in H as (st1 & H1 & H2).
    apply connectStep_Returns in H1 as ->. cbn [prev connections] in H2.
    rewrite (parentsOf_default _ _ _ (or_introl Hs)) in H2. cbn [foldl] in H2.
    unfold withEdge in H2. cbn [parentKey] in H2.
    rewrite (Hfresh (i + 1)) in H2 by lia. cbn [default app] in H2.
    replace (i + 2) with (S i + 1) in H2 by lia.
    apply IH in H2 as [Hin Hout]; [|done|].
    + split.
      * intros [|j] Hj.
        -- rewrite Nat.add_0_r, Hout.
           ++ rewrite lookup_insert_eq. do 4 f_equal. lia.
           ++ intros j _ E. apply js_String_inj in E. lia.
        -- cbn [length] in Hj. specialize (Hin j ltac:(lia)).
           replace (i + 1 + S j) with (S i + 1 + j) by lia.
           rewrite Hin. do 4 f_equal. lia.
      * intros k Hk. rewrite Hout.
        -- apply lookup_insert_ne. intros E. apply (Hk 0); [cbn; lia|].
           rewrite <- E. f_equal. lia.
        -- intros j Hj E. apply (Hk (S j)); [cbn; lia|].
           rewrite E. f_equal. lia.
    + intros j Hj. rewrite lookup_insert_ne; [apply Hfresh; lia|].
      intros E. apply js_String_inj in E. lia.
Qed.

(** C1: for a plan whose steps all lack [dependsOn], the rendered graph has
    one node more than the plan has steps, numbered "1", "2", ... in order,
    and its connection map is the single chain 1 -> 2 -> ... -> N+1: each of
    the first N nodes has the entry [{ main: [[e]] }] with exactly one
    outgoing edge [e = { node: <id of the next node>, type: "main", index: 0 }],
    and there is no other source. A plan without steps renders to the trigger
    node alone, numbered "1", and an empty connection map. *)
Theorem C1_linear_chain (args : Args.t) :
  Forall (λ s, Step.dependsOn s = None) (Args.steps args) →
  (Args.steps args = [] →
   ∃ n, renderWorkflow args
        = Returns (obj [("nodes", JArr [n]); ("connections", JObj ∅)]) ∧
        n = triggerNode args ∧ field "id" n = Some (JStr "1")) ∧
  ∀ g, renderWorkflow args = Returns g →
    length (graphNodes g) = length (Args.steps args) + 1 ∧
    (∀ i n, graphNodes g !! i = Some n →
            field "id" n = Some (JStr (js_String (i + 1)))) ∧
    (∀ i, (i < length (Args.steps args))%nat →
          graphConnections g !! js_String (i + 1)
          = Some (obj [("main", JArr [JArr [
                    obj [ ("node", JStr (js_String (i + 2)));
                          ("type", JStr "main"); ("index", JNum 0) ]]])]) ∧
          outgoing g (js_String (i + 1))
          = [ obj [ ("node", JStr (js_String (i + 2)));
                    ("type", JStr "main"); ("index", JNum 0) ] ]) ∧
    (∀ p, is_Some (graphConnections g !! p) →
          ∃ i, (i < length (Args.steps args))%nat ∧ p = js_String (i + 1)).
Proof.
  intros Hdeps. split.
  { intros Hnil. exists (triggerNode args). split; [|split; [done|]].
    - unfold renderWorkflow. rewrite Hnil. reflexivity.
    - apply triggerNode_id_position. }
  intros g H.
  pose proof (render_nodes _ _ H) as (Hn0 & Hlen & Hnodes).
  apply render_Returns in H as (st & c & _ & Hc & ->).
  rewrite graphNodes_obj, graphConnections_obj in *.
  apply (connectFrom_chain _ _ 0 ∅) in Hc as [Hin Hout]; [|done|done].
  split; [done|]. split; [|split].
  - intros [|i] n Hi.
    + rewrite Hn0 in Hi. injection Hi as <-. apply triggerNode_id_position.
    + assert (i < length (Args.steps args))%nat as Hi'.
      { apply lookup_lt_Some in Hi. lia. }
      apply lookup_lt_is_Some in Hi' as [s Hs].
      destruct (Hnodes i s Hs) as (spec & _ & E).
      replace (i + 1) with (S i) in E by lia. rewrite E in Hi. injection Hi as <-.
      replace (S i + 1) with (i + 2) by lia. apply stepNode_fields.
  - intros i Hi. specialize (Hin i Hi).
    replace (0 + 1 + i) with (i + 1) in Hin by lia.
    replace (0 + 2 + i) with (i + 2) in Hin by lia.
    split.
    + rewrite lookup_fmap, Hin. reflexivity.
    + rewrite outgoing_obj, Hin. reflexivity.
  - intros p Hp. rewrite lookup_fmap in Hp. apply fmap_is_Some in Hp.
    destruct (decide (p ∈ (λ j, js_String (j + 1)) <$> seq 0 (length (Args.steps args))))
      as [Hel|Hnel].
    + apply list_elem_of_fmap in Hel as (j & -> & Hj).
      apply elem_of_seq in Hj. exists j. split; [lia|done].
    + rewrite Hout in Hp; [by destruct Hp|].
      intros j Hj ->. apply Hnel, list_elem_of_fmap. exists j.
      split; [f_equal; lia|]. apply elem_of_seq. lia.
Qed.

Lemma C1_linear_chain_witness :
  Forall (λ s, Step.dependsOn s = None) (Args.steps samplePlan) ∧
  renderWorkflow samplePlan = Returns sampleGraph ∧
  length (graphNodes sampleGraph) = 3 ∧
  outgoing sampleGraph "1"
  = [obj [("node", JStr "2"); ("type", JStr "main"); ("index", JNum 0)]] ∧
  outgoing sampleGraph "2"
  = [obj [("node", JStr "3"); ("type", JStr "main"); ("index", JNum 0)]].
Proof.
  assert (Forall (λ s, Step.dependsOn s = None) (Args.steps samplePlan)) as Hd
    by (repeat constructor).
  assert (renderWorkflow samplePlan = Returns sampleGraph) as H
    by (vm_compute; reflexivity).
  destruct (proj2 (C1_linear_chain samplePlan Hd) sampleGraph H) as (Hl & _ & Hc & _).
  split; [exact Hd|]. split; [exact H|]. split; [exact Hl|].
  split; [exact (proj2 (Hc 0 (le_S 1 1 (le_n 1)))) | exact (proj2 (Hc 1 (le_n 2)))].
Defined.

(** ** Edges of a step, and the cursor *)

Lemma hasEdge_outgoing (ns : list json) (conn : gmap string (list json))
    (p : string) (e : json) :
  hasEdge conn p e →
  e ∈ outgoing (obj [("nodes", JArr ns); ("connections", JObj (fanout <$> conn))]) p.
Proof. intros (es & H1 & H2). by rewrite outgoing_obj, H1. Qed.

(** The step at index [i] is linked from every one of its parents, computed
    with the cursor the loop has reached after the [i] steps before it. *)
Lemma render_step_edges (args : Args.t) (g : json) (i : nat) (s : Step.t) :
  renderWorkflow args = Returns g →
  Args.steps args !! i = Some s →
  ∃ st c,
    foldM renderStep (Args.steps args) (initSteps args) = Returns st ∧
    connectFrom (idByStep st) 0 (take i (Args.steps args)) initConn = Returns c ∧
    ∀ q, q ∈ parentsOf (idByStep st) (prev c) s →
         edgeTo (js_String (i + 2)) ∈ outgoing g (parentKey q).
Proof.
  intros H Hs. apply render_Returns in H as (st & cf & H1 & H2 & ->).
  rewrite <- (take_drop i (Args.steps args)) in H2 at 1.
  rewrite connectFrom_app in H2. apply bind_Returns in H2 as (c & Hc & H2).
  rewrite (drop_S _ _ _ Hs) in H2. cbn [connectFrom] in H2.
  apply bind_Returns in H2 as (st1 & Hst1 & H2).
  apply connectStep_Returns in Hst1.
  rewrite length_take_le in Hst1 by (apply lookup_lt_Some in Hs; lia).
  exists st, c. split; [done|]. split; [done|].
  intros q Hq. apply hasEdge_outgoing, (connectFrom_mono _ _ _ _ _ _ _ H2).
  rewrite Hst1. cbn [connections]. by apply withEdges_new.
Qed.

(** C7: once the connection loop has processed the step at position [i], the
    cursor is the id of that step's node, whatever the step's own parents
    were; hence a following step without [dependsOn] of its own is linked from
    that node: the edge [{ node: <id of the following step's node>,
    type: "main", index: 0 }] is among the outgoing edges of the node of step
    [i]. The state [c] is the one the loop is in after the steps [0..i]; it
    goes on from there to the connections of the graph. *)
Theorem C7_cursor_follows (args : Args.t) (g : json) (i : nat) (s : Step.t) :
  renderWorkflow args = Returns g →
  Args.steps args !! i = Some s →
  ∃ st c cf n,
    foldM renderStep (Args.steps args) (initSteps args) = Returns st ∧
    connectFrom (idByStep st) 0 (take (S i) (Args.steps args)) initConn = Returns c ∧
    connectFrom (idByStep st) (S i) (drop (S i) (Args.steps args)) c = Returns cf ∧
    graphConnections g = fanout <$> connections cf ∧
    graphNodes g !! (i + 1) = Some n ∧
    field "id" n = Some (JStr (prev c)) ∧
    prev c = js_String (i + 2) ∧
    ∀ s', Args.steps args !! S i = Some s' →
          Step.dependsOn s' = None ∨ Step.dependsOn s' = Some [] →
          (∃ n', graphNodes g !! (i + 2) = Some n' ∧
                 field "id" n' = Some (JStr (js_String (i + 3)))) ∧
          obj [ ("node", JStr (js_String (i + 3))); ("type", JStr "main");
                ("index", JNum 0) ] ∈ outgoing g (prev c) ∧
          obj [ ("node", JStr (js_String (i + 3))); ("type", JStr "main");
                ("index", JNum 0) ] ∈ outgoing g (js_String (i + 2)).
Proof.
  intros H Hs.
  pose proof (render_nodes _ _ H) as (_ & _ & Hnodes).
  destruct (Hnodes i s Hs) as (spec & _ & Hn).
  pose proof H as H'. apply render_Returns in H' as (st & cf & H1 & H2 & Hg).
  rewrite <- (take_drop (S i) (Args.steps args)) in H2 at 1.
  rewrite connectFrom_app in H2. apply bind_Returns in H2 as (c & Hc & Hcf).
  assert (length (take (S i) (Args.steps args)) = S i) as Hlen.
  { rewrite length_take_le; [done|]. apply lookup_lt_Some in Hs. lia. }
  rewrite Hlen in Hcf. cbn [Nat.add] in Hcf.
  assert (prev c = js_String (i + 2)) as Hprev.
  { rewrite (connectFrom_prev _ _ _ _ _ Hc), Hlen.
    destruct (take (S i) (Args.steps args)); [done|]. f_equal. lia. }
  exists st, c, cf, (stepNode spec s (i + 2)). split; [done|]. split; [done|].
  split; [done|]. split; [by rewrite Hg, graphConnections_obj|].
  split; [done|]. split; [rewrite Hprev; apply stepNode_fields|]. split; [done|].
  intros s' Hs' Hdeps.
  destruct (Hnodes (S i) s' Hs') as (spec' & _ & Hn').
  destruct (render_step_edges _ _ _ _ H Hs') as (st' & c' & H1' & Hc' & Hedges).
  assert (st' = st) as -> by congruence.
  assert (c' = c) as -> by congruence.
  rewrite (parentsOf_default _ _ _ Hdeps) in Hedges.
  specialize (Hedges (PId (prev c)) ltac:(by apply list_elem_of_singleton)).
  cbn [parentKey] in Hedges. replace (S i + 2) with (i + 3) in Hedges by lia.
  split; [|split].
  - exists (stepNode spec' s' (S i + 2)).
    split; [by replace (i + 2) with (S i + 1) by lia|].
    replace (i + 3) with (S i + 2) by lia. apply stepNode_fields.
  - exact Hedges.
  - rewrite <- Hprev. exact Hedges.
Qed.

Lemma C7_cursor_follows_witness :
  renderWorkflow reorderedPlan = Returns reorderedGraph ∧
  obj [("node", JStr "4"); ("type", JStr "main"); ("index", JNum 0)]
  ∈ outgoing reorderedGraph "3".
Proof.
  assert (renderWorkflow reorderedPlan = Returns reorderedGraph) as H
    by (vm_compute; reflexivity).
  split; [exact H|].
  destruct (C7_cursor_follows reorderedPlan reorderedGraph 1
              (Step.mk (Some "b") "HTTP Request" ∅ (Some ["c"; "trigger"]))
              H eq_refl)
    as (st & c & cf & n & _ & _ & _ & _ & _ & _ & _ & Hnext).
  exact (proj2 (proj2 (Hnext _ eq_refl (or_introl eq_refl)))).
Defined.

(** In every rendered graph each step node has an incoming edge. *)
Lemma render_incoming_edge (args : Args.t) (g : json) (i : nat) :
  renderWorkflow args = Returns g →
  (i < length (Args.steps args))%nat →
  ∃ p, edgeTo (js_String (i + 2)) ∈ outgoing g p.
Proof.
  intros H Hi. apply lookup_lt_is_Some in Hi as [s Hs].
  destruct (render_step_edges _ _ _ _ H Hs) as (st & c & _ & _ & Hedges).
  pose proof (parentsOf_nonempty (idByStep st) (prev c) s) as Hne.
  destruct (parentsOf (idByStep st) (prev c) s) as [|q qs]; [done|].
  exists (parentKey q). apply Hedges, elem_of_cons. by left.
Qed.

(** A step that names ["trigger"] in [dependsOn] is linked from node "1",
    wherever it stands in the plan. *)
Lemma render_trigger_dependency (args : Args.t) (g : json) (i : nat) (s : Step.t)
    (ks : list string) :
  renderWorkflow args = Returns g →
  Args.steps args !! i = Some s →
  Step.dependsOn s = Some ks → "trigger" ∈ ks →
  edgeTo (js_String (i + 2)) ∈ outgoing g "1".
Proof.
  intros H Hs Hd Hk.
  destruct (render_step_edges _ _ _ _ H Hs) as (st & c & _ & _ & Hedges).
  apply (Hedges (PId triggerId)). unfold parentsOf. rewrite Hd.
  destruct ks as [|k ks]; [by apply elem_of_nil in Hk|].
  apply list_elem_of_fmap. exists "trigger". split; [done|done].
Qed.

(** How a token of [dependsOn] resolves when it is not the name of an
    inherited member. *)
Lemma resolveParent_cases (idx : gmap string string) (prev k : string) :
  k ∉ ObjectPrototype →
  resolveParent idx prev k
  = if decide (k = "trigger") then PId "1"
    else match idx !! k with
         | Some id => PId (if decide (id = "") then prev else id)
         | None => PId prev
         end.
Proof.
  intros Hk. unfold resolveParent, get, orElse.
  case_bool_decide; case_decide; try done.
  destruct (idx !! k) as [id|].
  - by case_bool_decide; case_decide.
  - by rewrite bool_decide_eq_false_2.
Qed.

(** ** Field names of the graph *)


(** ** Inherited names *)

(** The engine type of a step node: the catalog's for a catalog name, the
    step's own type string otherwise. *)
Lemma render_engine_type (args : Args.t) (g : json) (i : nat) (s : Step.t) :
  renderWorkflow args = Returns g →
  Args.steps args !! i = Some s →
  ∃ n, graphNodes g !! (i + 1) = Some n ∧
       field "id" n = Some (JStr (js_String (i + 2))) ∧
       field "type" n
       = Some (JStr match NODE_SPECS !! Step.type s with
                    | Some spec => NodeSpec.type spec
                    | None => Step.type s
                    end).
Proof.
  intros H Hs. apply render_nodes in H as (_ & _ & Hnodes).
  destruct (Hnodes i s Hs) as (spec & Hspec & Hn).
  exists (stepNode spec s (i + 2)). split; [done|].
  split; [apply stepNode_fields|].
  destruct (stepNode_fields spec s (i + 2)) as (_ & _ & -> & _).
  unfold lookupSpec, get in Hspec.
  destruct (NODE_SPECS !! Step.type s) as [spec'|].
  - by injection Hspec as ->.
  - case_bool_decide; [done|]. by injection Hspec as <-.
Qed.

(** C5, at the failing input: "constructor" and "toString" are not catalog
    names, yet the lookup does not synthesize an entry for them: it finds the
    member every object inherits under that name and throws, and a plan with
    two steps of such a type has no rendered nodes at all. In a graph that is
    returned, the node of a step carries the catalog's engine type when the
    step's type is a catalog name and the step's type string otherwise, and
    the ids of two steps differ. *)
Theorem C5_inherited_type_lookup :
  NODE_SPECS !! "constructor" = None ∧
  lookupSpec "constructor"
  = Throws "TypeError: Cannot read properties of undefined (reading 'parameters')" ∧
  NODE_SPECS !! "toString" = None ∧
  renderWorkflow inheritedTypePlan2
  = Throws "TypeError: Cannot read properties of undefined (reading 'parameters')" ∧
  (∀ args g i s,
     renderWorkflow args = Returns g → Args.steps args !! i = Some s →
     ∃ n, graphNodes g !! (i + 1) = Some n ∧
          field "id" n = Some (JStr (js_String (i + 2))) ∧
          field "type" n
          = Some (JStr match NODE_SPECS !! Step.type s with
                       | Some spec => NodeSpec.type spec
                       | None => Step.type s
                       end)) ∧
  (∀ i j : nat, i ≠ j → js_String (i + 2) ≠ js_String (j + 2)).
Proof.
  do 4 (split; [reflexivity|]). split.
  - apply render_engine_type.
  - intros i j Hij E. apply js_String_inj in E. lia.
Qed.

(** C9, at the failing input: rendering a plan with a step of type
    "constructor" throws. Rendering returns a graph exactly for the plans none
    of whose steps is typed with a name inherited from [Object.prototype], and
    in a graph it returns every step node has an incoming edge. *)
Theorem C9_inherited_type_throws :
  renderWorkflow inheritedTypePlan
  = Throws "TypeError: Cannot read properties of undefined (reading 'parameters')" ∧
  (∀ args, (∃ g, renderWorkflow args = Returns g) ↔
           Forall (λ s, Step.type s ∉ ObjectPrototype) (Args.steps args)) ∧
  (∀ args g i, renderWorkflow args = Returns g →
               (i < length (Args.steps args))%nat →
               ∃ p,
                 obj [("node", JStr (js_String (i + 2))); ("type", JStr "main"); ("index", JNum 0)]
                 ∈ outgoing g p).
Proof.
  split; [reflexivity|]. split.
  - apply render_Returns_iff.
  - apply render_incoming_edge.
Qed.

(** C2, at the failing input: no step is keyed "constructor", yet the
    token does not fall back to the cursor: it resolves to the inherited
    member, and the edge to step "2" is filed under that member's text instead
    of under the trigger "1". A token that is not the name of an inherited
    member resolves as stated: "trigger" to "1", a recorded key to its id, any
    other to the cursor; every parent gets an edge to the step, and a step
    naming "trigger" is linked from node "1". *)
Theorem C2_inherited_token_no_fallback :
  (∃ st, foldM renderStep (Args.steps inheritedTokenPlan) (initSteps inheritedTokenPlan)
         = Returns st ∧ idByStep st !! "constructor" = None) ∧
  resolveParent ∅ "1" "constructor" = PInherited "constructor" ∧
  renderWorkflow inheritedTokenPlan = Returns inheritedTokenGraph ∧
  outgoing inheritedTokenGraph "1" = [] ∧
  outgoing inheritedTokenGraph "function Object() { [native code] }"
  = [obj [("node", JStr "2"); ("type", JStr "main"); ("index", JNum 0)]] ∧
  (∀ idx prev k, k ∉ ObjectPrototype →
     resolveParent idx prev k
     = if decide (k = "trigger") then PId "1"
       else match idx !! k with
            | Some id => PId (if decide (id = "") then prev else id)
            | None => PId prev
            end) ∧
  (∀ args g i s, renderWorkflow args = Returns g → Args.steps args !! i = Some s →
     ∃ st c,
       foldM renderStep (Args.steps args) (initSteps args) = Returns st ∧
       connectFrom (idByStep st) 0 (take i (Args.steps args)) initConn = Returns c ∧
       ∀ q, q ∈ parentsOf (idByStep st) (prev c) s →
            obj [("node", JStr (js_String (i + 2))); ("type", JStr "main"); ("index", JNum 0)]
            ∈ outgoing g (parentKey q)) ∧
  (∀ args g i s ks, renderWorkflow args = Returns g → Args.steps args !! i = Some s →
     Step.dependsOn s = Some ks → "trigger" ∈ ks →
     obj [("node", JStr (js_String (i + 2))); ("type", JStr "main"); ("index", JNum 0)]
     ∈ outgoing g "1").
Proof.
  split; [eexists; split; reflexivity|]. split; [reflexivity|].
  split; [vm_compute; reflexivity|]. do 2 (split; [reflexivity|]).
  split; [apply resolveParent_cases|].
  split; [apply render_step_edges | apply render_trigger_dependency].
Qed.

(** * Further properties of the renderer *)

(** ** Every node, by index *)

Lemma render_node_at (args : Args.t) (g : json) (i : nat) (n : json) :
  renderWorkflow args = Returns g →
  graphNodes g !! i = Some n →
  field "id" n = Some (JStr (js_String (i + 1))) ∧
  field "position" n = Some (nextPos (Z.of_nat i)).
Proof.
  intros H Hi. pose proof (render_nodes _ _ H) as (Hn0 & Hlen & Hnodes).
  destruct i as [|i].
  - rewrite Hn0 in Hi. injection Hi as <-. apply triggerNode_id_position.
  - assert (i < length (Args.steps args))%nat as Hi'.
    { apply lookup_lt_Some in Hi. lia. }
    apply lookup_lt_is_Some in Hi' as [s Hs].
    destruct (Hnodes i s Hs) as (spec & _ & E).
    replace (i + 1) with (S i) in E by lia. rewrite E in Hi. injection Hi as <-.
    destruct (stepNode_fields spec s (i + 2)) as (Hid & _ & _ & _ & _ & Hpos).
    split.
    + rewrite Hid. do 3 f_equal. lia.
    + rewrite Hpos. do 2 f_equal. lia.
Qed.

(** X1: Whatever the dependencies, a rendered graph has one node per step and the
    trigger; no two of its nodes share an id, and no two share a position. *)
Theorem nodes_counted_and_distinct (args : Args.t) (g : json) :
  renderWorkflow args = Returns g →
  length (graphNodes g) = length (Args.steps args) + 1 ∧
  ∀ i j ni nj,
    graphNodes g !! i = Some ni → graphNodes g !! j = Some nj → i ≠ j →
    field "id" ni ≠ field "id" nj ∧ field "position" ni ≠ field "position" nj.
Proof.
  intros H. split; [by apply render_nodes in H as (_ & Hl & _)|].
  intros i j ni nj Hi Hj Hij.
  destruct (render_node_at _ _ _ _ H Hi) as [-> ->].
  destruct (render_node_at _ _ _ _ H Hj) as [-> ->].
  split.
  - intros [= E]. apply js_String_inj in E. lia.
  - unfold nextPos. intros [= E]. lia.
Qed.

Lemma nodes_counted_and_distinct_witness :
  renderWorkflow reorderedPlan = Returns reorderedGraph ∧
  length (graphNodes reorderedGraph) = 4.
Proof.
  assert (renderWorkflow reorderedPlan = Returns reorderedGraph) as H
    by (vm_compute; reflexivity).
  split; [exact H|].
  exact (proj1 (nodes_counted_and_distinct reorderedPlan reorderedGraph H)).
Defined.

(** ** The keys recorded for the steps *)

Lemma set_lookup_same (m : gmap string string) (k v : string) :
  k ≠ "__proto__" → set m k v !! k = Some v.
Proof.
  intros Hk. unfold set. rewrite bool_decide_eq_false_2 by done.
  apply lookup_insert_eq.
Qed.

Lemma set_lookup_other (m : gmap string string) (k k' v : string) :
  k ≠ k' → set m k v !! k' = m !! k'.
Proof.
  intros Hk. unfold set. case_bool_decide; [done|]. by apply lookup_insert_ne.
Qed.

Lemma set_lookup_proto (m : gmap string string) (k v : string) :
  set m k v !! "__proto__" = m !! "__proto__".
Proof.
  unfold set. case_bool_decide as Hk; [done|]. by apply lookup_insert_ne.
Qed.

Lemma renderSteps_key_untouched (ss : list Step.t) (st st' : StepState) (k : string) :
  foldM renderStep ss st = Returns st' →
  (∀ j s, ss !! j = Some s → stepKey s (order st + 1 + j) ≠ k) →
  idByStep st' !! k = idByStep st !! k.
Proof.
  revert st. induction ss as [|s ss IH]; intros st H Hk.
  - by injection H as <-.
  - cbn [foldM] in H. apply bind_Returns in H as (st1 & H1 & H2).
    apply renderStep_Returns in H1 as (spec & _ & ->).
    rewrite (IH _ H2); cbn [order idByStep].
    + apply set_lookup_other. specialize (Hk 0 s eq_refl).
      by replace (order st + 1 + 0) with (S (order st)) in Hk by lia.
    + intros j s' Hs'. specialize (Hk (S j) s' Hs').
      by replace (order st + 1 + S j) with (S (order st) + 1 + j) in Hk by lia.
Qed.

Lemma renderSteps_proto_untouched (ss : list Step.t) (st st' : StepState) :
  foldM renderStep ss st = Returns st' →
  idByStep st' !! "__proto__" = idByStep st !! "__proto__".
Proof.
  revert st. induction ss as [|s ss IH]; intros st H.
  - by injection H as <-.
  - cbn [foldM] in H. apply bind_Returns in H as (st1 & H1 & H2).
    apply renderStep_Returns in H1 as (spec & _ & ->).
    rewrite (IH _ H2). cbn [idByStep]. apply set_lookup_proto.
Qed.

(** A key maps to the id of the last step recorded under it. *)
Lemma renderSteps_key_last (ss : list Step.t) (st st' : StepState)
    (k : string) (j : nat) (s : Step.t) :
  foldM renderStep ss st = Returns st' →
  ss !! j = Some s → stepKey s (order st + 1 + j) = k → k ≠ "__proto__" →
  (∀ j' s', (j < j')%nat → ss !! j' = Some s' → stepKey s' (order st + 1 + j') ≠ k) →
  idByStep st' !! k = Some (js_String (order st + 1 + j)).
Proof.
  revert st j. induction ss as [|s0 ss IH]; intros st j H Hj Hkey Hk Hlast; [done|].
  cbn [foldM] in H. apply bind_Returns in H as (st1 & H1 & H2).
  apply renderStep_Returns in H1 as (spec & _ & ->).
  destruct j as [|j].
  - injection Hj as ->.
    rewrite (renderSteps_key_untouched _ _ _ k H2); cbn [order idByStep].
    + replace (order st + 1 + 0) with (S (order st)) in * by lia.
      rewrite Hkey. by apply set_lookup_same.
    + intros j' s' Hs'. specialize (Hlast (S j') s' ltac:(lia) Hs').
      by replace (order st + 1 + S j') with (S (order st) + 1 + j') in Hlast by lia.
  - cbn in Hj.
    replace (order st + 1 + S j) with (S (order st) + 1 + j) in * by lia.
    apply (IH _ _ H2 Hj Hkey Hk).
    intros j' s' Hj' Hs'. specialize (Hlast (S j') s' ltac:(lia) Hs').
    by replace (order st + 1 + S j') with (S (order st) + 1 + j') in Hlast by lia.
Qed.

(** The cursor when the loop reaches the step at index [i]: the id of the
    node before it. *)
Lemma connectFrom_prev_take (idx : gmap string string) (ss : list Step.t)
    (i : nat) (c : ConnState) :
  (i < length ss)%nat →
  connectFrom idx 0 (take i ss) initConn = Returns c →
  prev c = js_String (i + 1).
Proof.
  intros Hi H. rewrite (connectFrom_prev _ _ _ _ _ H).
  destruct (take i ss) as [|x l] eqn:E.
  - destruct i; [done|]. destruct ss; cbn in *; [lia|done].
  - rewrite <- E, length_take_le by lia. f_equal.
Qed.

(** ** Resolving the tokens of [dependsOn] *)

Lemma recorded_last (args : Args.t) (st : StepState) (j : nat) (t : Step.t)
    (k : string) :
  foldM renderStep (Args.steps args) (initSteps args) = Returns st →
  Args.steps args !! j = Some t → keyAt j t = k → k ≠ "__proto__" →
  (∀ j' t', (j < j')%nat → Args.steps args !! j' = Some t' → keyAt j' t' ≠ k) →
  idByStep st !! k = Some (js_String (j + 2)).
Proof.
  intros Hst Ht Hkey Hpr Hlast.
  replace (j + 2) with (order (initSteps args) + 1 + j) by (cbn; lia).
  apply (renderSteps_key_last _ _ _ _ _ t Hst Ht); [|done|].
  - rewrite <- Hkey. unfold keyAt. f_equal. cbn. lia.
  - intros j' t' Hj' Ht'. specialize (Hlast j' t' Hj' Ht').
    unfold keyAt in Hlast. by replace (order (initSteps args) + 1 + j') with (j' + 2)
      by (cbn; lia).
Qed.

Lemma links_from_recorded (args : Args.t) (g : json) (st : StepState)
    (i : nat) (s : Step.t) (ks : list string) (k id : string) :
  renderWorkflow args = Returns g →
  foldM renderStep (Args.steps args) (initSteps args) = Returns st →
  Args.steps args !! i = Some s → Step.dependsOn s = Some ks → k ∈ ks →
  k ≠ "trigger" → idByStep st !! k = Some id → id ≠ "" →
  edgeTo (js_String (i + 2)) ∈ outgoing g id.
Proof.
  intros H Hst Hs Hd Hk Htr Hid Hne.
  destruct (render_step_edges _ _ _ _ H Hs) as (st' & c & Hst' & _ & Hedges).
  assert (st' = st) as -> by congruence.
  specialize (Hedges (PId id)). apply Hedges.
  unfold parentsOf. rewrite Hd. destruct ks as [|k0 ks]; [by apply elem_of_nil in Hk|].
  apply list_elem_of_fmap. exists k. split; [|done].
  unfold resolveParent. rewrite bool_decide_eq_false_2 by done.
  apply get_Own in Hid. rewrite Hid. unfold orElse.
  by rewrite bool_decide_eq_false_2.
Qed.

(** X2: A token of [dependsOn] that is the key of a step links the dependent
    step from the node of the last step recorded under that key, wherever that
    step stands: before the dependent step, after it, or the step itself. *)
Theorem dependsOn_links_from_last_keyed (args : Args.t) (g : json)
    (i j : nat) (s t : Step.t) (ks : list string) (k : string) :
  renderWorkflow args = Returns g →
  Args.steps args !! i = Some s → Step.dependsOn s = Some ks → k ∈ ks →
  k ≠ "trigger" → k ≠ "__proto__" →
  Args.steps args !! j = Some t → keyAt j t = k →
  (∀ j' t', (j < j')%nat → Args.steps args !! j' = Some t' → keyAt j' t' ≠ k) →
  obj [("node", JStr (js_String (i + 2))); ("type", JStr "main"); ("index", JNum 0)]
  ∈ outgoing g (js_String (j + 2)).
Proof.
  intros H Hs Hd Hk Htr Hpr Ht Hkey Hlast.
  pose proof H as H'. apply render_Returns in H' as (st & _ & Hst & _).
  apply (links_from_recorded args g st i s ks k); try done.
  - by apply (recorded_last args st j t).
  - apply js_String_nonempty.
Qed.

Lemma dependsOn_links_from_last_keyed_witness :
  renderWorkflow reorderedPlan = Returns reorderedGraph ∧
  obj [("node", JStr "3"); ("type", JStr "main"); ("index", JNum 0)] ∈ outgoing reorderedGraph "4".
Proof.
  assert (renderWorkflow reorderedPlan = Returns reorderedGraph) as H
    by (vm_compute; reflexivity).
  split; [exact H|].
  apply (dependsOn_links_from_last_keyed reorderedPlan reorderedGraph 1 2
           (Step.mk (Some "b") "HTTP Request" ∅ (Some ["c"; "trigger"]))
           (Step.mk (Some "c") "HTTP Request" ∅ None) ["c"; "trigger"] "c" H);
    try reflexivity; try discriminate.
  - apply elem_of_cons. by left.
  - intros [|[|[|j']]] t' Hj' Ht'; try lia; discriminate Ht'.
Defined.

(** X3: A token that is the key of no step, is not "trigger" and is not the name
    of an inherited member links the dependent step from the node just before
    it in input order. *)
Theorem dependsOn_dangling_links_from_previous (args : Args.t) (g : json)
    (i : nat) (s : Step.t) (ks : list string) (k : string) :
  renderWorkflow args = Returns g →
  Args.steps args !! i = Some s → Step.dependsOn s = Some ks → k ∈ ks →
  k ≠ "trigger" → k ∉ ObjectPrototype →
  (∀ j t, Args.steps args !! j = Some t → keyAt j t ≠ k) →
  obj [("node", JStr (js_String (i + 2))); ("type", JStr "main"); ("index", JNum 0)]
  ∈ outgoing g (js_String (i + 1)).
Proof.
  intros H Hs Hd Hk Htr Hpr Hnone.
  destruct (render_step_edges _ _ _ _ H Hs) as (st & c & Hst & Hc & Hedges).
  assert (idByStep st !! k = None) as Hid.
  { rewrite (renderSteps_key_untouched _ _ _ k Hst); [done|].
    intros j t Ht. specialize (Hnone j t Ht). unfold keyAt in Hnone.
    by replace (order (initSteps args) + 1 + j) with (j + 2) by (cbn; lia). }
  apply (connectFrom_prev_take _ _ _ _ (lookup_lt_Some _ _ _ Hs)) in Hc.
  specialize (Hedges (PId (js_String (i + 1)))). apply Hedges.
  unfold parentsOf. rewrite Hd. destruct ks as [|k0 ks]; [by apply elem_of_nil in Hk|].
  apply list_elem_of_fmap. exists k. split; [|done].
  unfold resolveParent. rewrite bool_decide_eq_false_2 by done.
  unfold get. rewrite Hid, bool_decide_eq_false_2 by done. by rewrite Hc.
Qed.

Lemma dependsOn_dangling_links_from_previous_witness :
  renderWorkflow danglingPlan = Returns danglingGraph ∧
  obj [("node", JStr "3"); ("type", JStr "main"); ("index", JNum 0)] ∈ outgoing danglingGraph "2".
Proof.
  assert (renderWorkflow danglingPlan = Returns danglingGraph) as H
    by (vm_compute; reflexivity).
  split; [exact H|].
  apply (dependsOn_dangling_links_from_previous danglingPlan danglingGraph 1
           (Step.mk None "HTTP Request" ∅ (Some ["nowhere"])) ["nowhere"] "nowhere" H);
    try reflexivity; try discriminate.
  - apply elem_of_cons. by left.
  - by apply (bool_decide_unpack _); vm_compute.
  - intros [|[|j]] t Ht; try discriminate Ht; injection Ht as <-; discriminate.
Defined.

(** ** Keys made of type and ordinal *)

Lemma occurs_append (c : Ascii.ascii) (s1 s2 : string) :
  occurs c (s1 +:+ s2) ↔ occurs c s1 ∨ occurs c s2.
Proof.
  induction s1 as [|a s1 IH].
  - cbn. tauto.
  - change (String a s1 +:+ s2) with (String a (s1 +:+ s2)).
    cbn [occurs]. rewrite IH. tauto.
Qed.

Lemma string_of_uint_no_dash (d : Decimal.uint) :
  ¬ occurs dash (NilEmpty.string_of_uint d).
Proof.
  induction d; cbn; [tauto|..]; (intros [H|H]; [discriminate H | by apply IHd]).
Qed.

Lemma js_String_no_dash (n : nat) : ¬ occurs dash (js_String n).
Proof.
  unfold js_String, NilZero.string_of_uint.
  destruct (Nat.to_uint n) eqn:E; try apply string_of_uint_no_dash.
  cbn. intros [H|[]]. discriminate H.
Qed.

(** Splitting at the last dash: a text, a dash and a dashless tail determine
    one another. *)
Lemma dash_tail_inj (t1 t2 d1 d2 : string) :
  ¬ occurs dash d1 → ¬ occurs dash d2 →
  t1 +:+ "-" +:+ d1 = t2 +:+ "-" +:+ d2 → t1 = t2 ∧ d1 = d2.
Proof.
  intros H1 H2. revert t2. induction t1 as [|a t1 IH]; intros [|b t2] E.
  - change (String dash d1 = String dash d2) in E. by injection E as ->.
  - change (String dash d1 = String b (t2 +:+ "-" +:+ d2)) in E.
    injection E as <- ->. destruct H1. apply occurs_append. right.
    change (occurs dash (String dash d2)). by left.
  - change (String a (t1 +:+ "-" +:+ d1) = String dash d2) in E.
    injection E as -> <-. destruct H2. apply occurs_append. right.
    change (occurs dash (String dash d1)). by left.
  - change (String a (t1 +:+ "-" +:+ d1) = String b (t2 +:+ "-" +:+ d2)) in E.
    injection E as -> E. by destruct (IH _ E) as [-> ->].
Qed.

Lemma stepKey_undeclared (s : Step.t) (n : nat) :
  Step.id s = None ∨ Step.id s = Some "" →
  stepKey s n = Step.type s +:+ "-" +:+ js_String n.
Proof. unfold stepKey, orElse. by intros [-> | ->]. Qed.

Lemma typed_key_has_dash (t : string) (n : nat) :
  occurs dash (t +:+ "-" +:+ js_String n).
Proof.
  apply occurs_append. right.
  change (occurs dash (String dash (js_String n))). by left.
Qed.

(** X4: In a plan whose steps declare no id, every step can be named by its type
    and ordinal: the token [<type>-<ordinal>] links the dependent step from
    the node of exactly that step. *)
Theorem undeclared_steps_named_by_type_and_ordinal (args : Args.t) (g : json)
    (i j : nat) (s t : Step.t) (ks : list string) :
  renderWorkflow args = Returns g →
  Forall (λ s, Step.id s = None ∨ Step.id s = Some "") (Args.steps args) →
  Args.steps args !! i = Some s → Step.dependsOn s = Some ks →
  Args.steps args !! j = Some t →
  Step.type t +:+ "-" +:+ js_String (j + 2) ∈ ks →
  obj [("node", JStr (js_String (i + 2))); ("type", JStr "main"); ("index", JNum 0)]
  ∈ outgoing g (js_String (j + 2)).
Proof.
  intros H Hids Hs Hd Ht Hk.
  pose proof H as H'. apply render_Returns in H' as (st & _ & Hst & _).
  assert (∀ j' t', Args.steps args !! j' = Some t' →
                   keyAt j' t' = Step.type t' +:+ "-" +:+ js_String (j' + 2)) as Hkeys.
  { intros j' t' Ht'. apply stepKey_undeclared.
    by apply (proj1 (Forall_lookup _ _) Hids j' t'). }
  apply (links_from_recorded args g st i s ks _ _ H Hst Hs Hd Hk).
  - intros E. apply (f_equal (occurs dash)) in E.
    pose proof (typed_key_has_dash (Step.type t) (j + 2)) as Hdash.
    rewrite E in Hdash. cbn in Hdash.
      repeat (destruct Hdash as [Hdash|Hdash]; [discriminate Hdash|]). done.
  - apply (recorded_last args st j t _ Hst Ht (Hkeys _ _ Ht)).
    + intros E. apply (f_equal (occurs dash)) in E.
      pose proof (typed_key_has_dash (Step.type t) (j + 2)) as Hdash.
      rewrite E in Hdash. cbn in Hdash.
      repeat (destruct Hdash as [Hdash|Hdash]; [discriminate Hdash|]). done.
    + intros j' t' Hj' Ht' E. rewrite (Hkeys _ _ Ht') in E.
      apply dash_tail_inj in E as [_ E]; try apply js_String_no_dash.
      apply js_String_inj in E. lia.
  - apply js_String_nonempty.
Qed.

Lemma undeclared_steps_named_by_type_and_ordinal_witness :
  renderWorkflow byOrdinalPlan = Returns byOrdinalGraph ∧
  obj [("node", JStr "4"); ("type", JStr "main"); ("index", JNum 0)] ∈ outgoing byOrdinalGraph "2".
Proof.
  assert (renderWorkflow byOrdinalPlan = Returns byOrdinalGraph) as H
    by (vm_compute; reflexivity).
  split; [exact H|].
  apply (undeclared_steps_named_by_type_and_ordinal byOrdinalPlan byOrdinalGraph 2 0
           (Step.mk (Some "") "HTTP Request" ∅ (Some ["HTTP Request-2"])) httpStep
           ["HTTP Request-2"] H); try reflexivity.
  - repeat (constructor; [first [by left | by right]|]). constructor.
  - apply elem_of_cons. by left.
Defined.

(** ** Targets of the edges *)

Lemma targetsUpTo_mono (b b' : nat) (es : list json) :
  (b ≤ b')%nat → targetsUpTo b es → targetsUpTo b' es.
Proof.
  intros Hb (ts & -> & Hts & Hsorted). exists ts. split; [done|]. split; [|done].
  eapply Forall_impl; [exact Hts|]. intros t Ht. cbn in *. lia.
Qed.

Lemma withEdge_targets (b : nat) (conn : gmap string (list json)) (q : parent) :
  (2 ≤ b)%nat →
  map_Forall (λ _ es, targetsUpTo b es) conn →
  map_Forall (λ _ es, targetsUpTo b es) (withEdge (js_String b) conn q).
Proof.
  intros Hb H. unfold withEdge. apply map_Forall_insert_2; [|done].
  assert (targetsUpTo b (default [] (conn !! parentKey q))) as (ts & -> & Hts & Hs).
  { destruct (conn !! parentKey q) as [es|] eqn:E; [by apply (H _ _ E)|].
    exists []. repeat split; constructor. }
  exists (ts ++ [b]). split; [by rewrite fmap_app|]. split.
  - apply Forall_app. split; [done|]. repeat constructor; lia.
  - apply StronglySorted_app_2; [|done|repeat constructor].
    intros x1 x2 Hx1 Hx2. apply list_elem_of_singleton in Hx2 as ->.
    by apply (proj1 (Forall_forall _ _) Hts x1).
Qed.

Lemma connectFrom_targets (idx : gmap string string) (ss : list Step.t) (i : nat)
    (st c : ConnState) :
  connectFrom idx i ss st = Returns c →
  map_Forall (λ _ es, targetsUpTo (i + 1) es) (connections st) →
  map_Forall (λ _ es, targetsUpTo (i + length ss + 1) es) (connections c).
Proof.
  revert i st. induction ss as [|s ss IH]; intros i st H Hst.
  - injection H as <-. cbn [length]. by rewrite Nat.add_0_r.
  - cbn [connectFrom] in H. apply bind_Returns in H as (st1 & H1 & H2).
    apply connectStep_Returns in H1 as ->.
    apply IH in H2.
    + cbn [length]. by replace (i + S (length ss) + 1) with (S i + length ss + 1) by lia.
    + cbn [connections]. replace (S i + 1) with (i + 2) by lia.
      assert (map_Forall (λ _ es, targetsUpTo (i + 2) es) (connections st)) as Hst'.
      { intros p es Hp. apply (targetsUpTo_mono (i + 1)); [lia|]. by apply (Hst p). }
      clear H2 IH Hst. revert Hst'. generalize (connections st).
      induction (parentsOf idx (prev st) s) as [|q ps IHps]; intros conn Hconn; [done|].
      cbn [foldl]. apply IHps, withEdge_targets; [lia|done].
Qed.

Lemma edgeTo_inj (a b : string) : edgeTo a = edgeTo b → a = b.
Proof.
  intros E. apply (f_equal (field "node")) in E.
  change (Some (JStr a) = Some (JStr b)) in E. congruence.
Qed.

(** X5: Every edge of a rendered graph leads to the node of a step; under each
    source the edges stand in the order of the steps they lead to. No edge
    leads to the trigger node. *)
Theorem edges_lead_to_steps_in_order (args : Args.t) (g : json) (p : string) :
  renderWorkflow args = Returns g →
  (∃ ts : list nat,
     outgoing g p
     = (λ t, obj [("node", JStr (js_String t)); ("type", JStr "main"); ("index", JNum 0)])
       <$> ts ∧
     Forall (λ t, 2 ≤ t ≤ length (Args.steps args) + 1)%nat ts ∧
     StronglySorted le ts) ∧
  obj [("node", JStr "1"); ("type", JStr "main"); ("index", JNum 0)] ∉ outgoing g p.
Proof.
  intros H. apply render_Returns in H as (st & c & _ & Hc & ->).
  rewrite outgoing_obj.
  apply connectFrom_targets in Hc; [|apply map_Forall_empty].
  assert (targetsUpTo (length (Args.steps args) + 1) (default [] (connections c !! p)))
    as (ts & Hes & Hts & Hs).
  { destruct (connections c !! p) as [es|] eqn:E; [by apply (Hc _ _ E)|].
    exists []. repeat split; constructor. }
  split; [by exists ts|].
  rewrite Hes. intros Hin. apply list_elem_of_fmap in Hin as (t & E & Ht).
  apply (edgeTo_inj "1" (js_String t)), (js_String_inj 1 t) in E. subst t.
  apply (proj1 (Forall_forall _ _) Hts) in Ht. lia.
Qed.

Lemma edges_lead_to_steps_in_order_witness :
  renderWorkflow reorderedPlan = Returns reorderedGraph ∧
  obj [("node", JStr "1"); ("type", JStr "main"); ("index", JNum 0)] ∉ outgoing reorderedGraph "4".
Proof.
  assert (renderWorkflow reorderedPlan = Returns reorderedGraph) as H
    by (vm_compute; reflexivity).
  split; [exact H|].
  exact (proj2 (edges_lead_to_steps_in_order reorderedPlan reorderedGraph "4" H)).
Defined.

(** ** Number of edges *)

Lemma edgeTotal_insert_fresh (conn : gmap string (list json)) (p : string)
    (es : list json) :
  conn !! p = None → edgeTotal (<[p := es]> conn) = length es + edgeTotal conn.
Proof.
  intros Hp. unfold edgeTotal. by rewrite (map_to_list_insert _ _ _ Hp).
Qed.

Lemma withEdge_total (current : string) (conn : gmap string (list json)) (q : parent) :
  edgeTotal (withEdge current conn q) = S (edgeTotal conn).
Proof.
  unfold withEdge. destruct (conn !! parentKey q) as [es|] eqn:E; cbn [default].
  - rewrite <- insert_delete_eq.
    rewrite edgeTotal_insert_fresh by apply lookup_delete_eq.
    rewrite <- (insert_delete_id conn (parentKey q) es E) at 2.
    rewrite edgeTotal_insert_fresh by apply lookup_delete_eq.
    rewrite length_app. cbn. lia.
  - by rewrite edgeTotal_insert_fresh.
Qed.

Lemma withEdges_total (current : string) (ps : list parent)
    (conn : gmap string (list json)) :
  edgeTotal (foldl (withEdge current) conn ps) = length ps + edgeTotal conn.
Proof.
  revert conn. induction ps as [|q ps IH]; intros conn; [done|].
  cbn [foldl length]. rewrite IH, withEdge_total. lia.
Qed.

Lemma parentsOf_length (idx : gmap string string) (prev : string) (s : Step.t) :
  length (parentsOf idx prev s) = parentCount s.
Proof.
  unfold parentsOf, parentCount.
  destruct (Step.dependsOn s) as [[|k ks]|]; [done| |done].
  by rewrite length_fmap.
Qed.

Lemma connectFrom_total (idx : gmap string string) (ss : list Step.t) (i : nat)
    (st c : ConnState) :
  connectFrom idx i ss st = Returns c →
  edgeTotal (connections c) = sum_list_with parentCount ss + edgeTotal (connections st).
Proof.
  revert i st. induction ss as [|s ss IH]; intros i st H.
  - by injection H as <-.
  - cbn [connectFrom] in H. apply bind_Returns in H as (st1 & H1 & H2).
    apply connectStep_Returns in H1 as ->. apply IH in H2. rewrite H2.
    cbn [connections sum_list_with]. rewrite withEdges_total, parentsOf_length. lia.
Qed.

Lemma edgeCount_obj (ns : list json) (conn : gmap string (list json)) :
  edgeCount (obj [("nodes", JArr ns); ("connections", JObj (fanout <$> conn))])
  = edgeTotal conn.
Proof.
  unfold edgeCount, edgeTotal. rewrite graphConnections_obj, map_to_list_fmap.
  induction (map_to_list conn) as [|[p es] l IH]; [done|].
  cbn [fmap list_fmap sum_list_with]. by rewrite <- IH.
Qed.

(** X6: A rendered graph holds one edge per parent of each step: as many as the
    step has tokens in [dependsOn], repeated tokens included, and one for a
    step without tokens. *)
Theorem one_edge_per_parent (args : Args.t) (g : json) :
  renderWorkflow args = Returns g →
  edgeCount g
  = sum_list_with (λ s, match Step.dependsOn s with
                        | Some (k :: ks) => S (length ks)
                        | _ => 1
                        end) (Args.steps args).
Proof.
  intros H. apply render_Returns in H as (st & c & _ & Hc & ->).
  rewrite edgeCount_obj, (connectFrom_total _ _ _ _ _ Hc).
  unfold initConn, edgeTotal. cbn [connections].
  rewrite map_to_list_empty. cbn. by rewrite Nat.add_0_r.
Qed.

Lemma one_edge_per_parent_witness :
  renderWorkflow reorderedPlan = Returns reorderedGraph ∧
  edgeCount reorderedGraph = 4.
Proof.
  assert (renderWorkflow reorderedPlan = Returns reorderedGraph) as H
    by (vm_compute; reflexivity).
  split; [exact H|].
  exact (one_edge_per_parent reorderedPlan reorderedGraph H).
Defined.

(** ** Sources of the edges *)

Lemma renderSteps_idsUpTo (ss : list Step.t) (st st' : StepState) :
  foldM renderStep ss st = Returns st' →
  (1 ≤ order st)%nat →
  idsUpTo (order st) (idByStep st) → idsUpTo (order st') (idByStep st').
Proof.
  revert st. induction ss as [|s ss IH]; intros st H Ho Hst.
  - by injection H as <-.
  - cbn [foldM] in H. apply bind_Returns in H as (st1 & H1 & H2).
    apply renderStep_Returns in H1 as (spec & _ & ->).
    apply (IH _ H2); cbn [order idByStep]; [lia|].
    assert (idsUpTo (S (order st)) (idByStep st)) as Hst'.
    { intros k v Hk. destruct (Hst k v Hk) as (j & Hj & ->). exists j. split; [lia|done]. }
    unfold set. case_bool_decide; [done|].
    apply map_Forall_insert_2; [|done].
    exists (S (order st)). split; [lia|done].
Qed.

Lemma parentsOf_classify (idx : gmap string string) (prev : string) (s : Step.t)
    (q : parent) :
  q ∈ parentsOf idx prev s →
  parentKey q = "1" ∨ parentKey q = prev ∨
  (∃ k, idx !! k = Some (parentKey q)) ∨
  (∃ ks k, Step.dependsOn s = Some ks ∧ k ∈ ks ∧ k ∈ ObjectPrototype ∧
           parentKey q = inheritedKey k).
Proof.
  unfold parentsOf. destruct (Step.dependsOn s) as [[|k0 ks]|] eqn:Hd.
  - intros ->%list_elem_of_singleton. by right; left.
  - intros (k & -> & Hk)%list_elem_of_fmap. unfold resolveParent.
    case_bool_decide; [by left|].
    destruct (get idx k) as [v|m|] eqn:E; cbn [parentKey].
    + apply get_Own in E. unfold orElse. case_bool_decide; [by right; left|].
      right; right; left. by exists k.
    + apply get_Inherited in E as (_ & E & ->). right; right; right.
      by exists (k0 :: ks), k.
    + by right; left.
  - intros ->%list_elem_of_singleton. by right; left.
Qed.

Lemma withEdges_sources (current : string) (ps : list parent)
    (conn : gmap string (list json)) (p : string) :
  is_Some (foldl (withEdge current) conn ps !! p) →
  is_Some (conn !! p) ∨ ∃ q, q ∈ ps ∧ p = parentKey q.
Proof.
  revert conn. induction ps as [|q ps IH]; intros conn H; [by left|].
  cbn [foldl] in H. apply IH in H as [H|(q' & Hq' & ->)].
  - unfold withEdge in H. destruct (decide (parentKey q = p)) as [<-|Hne].
    + right. exists q. split; [by left|done].
    + rewrite lookup_insert_ne in H by done. by left.
  - right. exists q'. split; [by right|done].
Qed.

(** Every source of the map is there from the start or is a parent of one of
    the steps, computed with the cursor on the node before that step. *)
Lemma connectFrom_sources (idx : gmap string string) (ss : list Step.t) (i0 : nat)
    (conn : gmap string (list json)) (c : ConnState) (p : string) :
  connectFrom idx i0 ss {| prev := js_String (i0 + 1); connections := conn |}
  = Returns c →
  is_Some (connections c !! p) →
  is_Some (conn !! p) ∨
  ∃ i s q, ss !! i = Some s ∧
           q ∈ parentsOf idx (js_String (i0 + i + 1)) s ∧ p = parentKey q.
Proof.
  revert i0 conn. induction ss as [|s ss IH]; intros i0 conn H Hp.
  - injection H as <-. by left.
  - cbn [connectFrom] in H. apply bind_Returns in H as (st1 & H1 & H2).
    apply connectStep_Returns in H1 as ->. cbn [prev connections] in H2.
    replace (i0 + 2) with (S i0 + 1) in H2 at 1 by lia.
    destruct (IH _ _ H2 Hp) as [Hc|(i & s' & q & Hs' & Hq & ->)].
    + apply withEdges_sources in Hc as [Hc|(q & Hq & ->)]; [by left|].
      right. exists 0, s, q. split; [done|]. split; [|done].
      by rewrite Nat.add_0_r.
    + right. exists (S i), s', q. split; [done|]. split; [|done].
      by replace (i0 + S i + 1) with (S i0 + i + 1) by lia.
Qed.

Lemma render_sources (args : Args.t) (g : json) (p : string) :
  renderWorkflow args = Returns g →
  is_Some (graphConnections g !! p) →
  (∃ i n, graphNodes g !! i = Some n ∧ field "id" n = Some (JStr p)) ∨
  (∃ i s ks k, Args.steps args !! i = Some s ∧ Step.dependsOn s = Some ks ∧
               k ∈ ks ∧ k ∈ ObjectPrototype ∧ p = inheritedKey k).
Proof.
  intros H Hp.
  assert (∀ j : nat, (1 ≤ j ≤ length (Args.steps args) + 1)%nat →
            ∃ i n, graphNodes g !! i = Some n ∧
                   field "id" n = Some (JStr (js_String j))) as Hnode.
  { intros j Hj. pose proof (render_nodes _ _ H) as (_ & Hlen & _).
    destruct (lookup_lt_is_Some_2 (graphNodes g) (j - 1)) as [n Hn]; [lia|].
    exists (j - 1), n. split; [done|].
    destruct (render_node_at _ _ _ _ H Hn) as [-> _]. do 3 f_equal. lia. }
  pose proof H as H'. apply render_Returns in H' as (st & c & Hst & Hc & ->).
  rewrite graphConnections_obj, lookup_fmap in Hp. apply fmap_is_Some in Hp.
  pose proof (renderSteps_idsUpTo _ _ _ Hst) as Hids.
  apply renderSteps_nodes in Hst as (Ho & _).
  cbn [initSteps order idByStep] in Hids, Ho.
  specialize (Hids ltac:(lia) ltac:(apply map_Forall_empty)).
  apply (connectFrom_sources _ _ 0 ∅ c p Hc) in Hp
    as [Hp|(i & s & q & Hs & Hq & ->)]; [by destruct Hp|].
  pose proof (lookup_lt_Some _ _ _ Hs) as Hi.
  apply parentsOf_classify in Hq as [Hq|[Hq|[(k & Hk)|(ks & k & Hd & Hk & Hin & Hq)]]].
  - left. rewrite Hq. apply (Hnode 1). lia.
  - left. rewrite Hq. apply (Hnode (0 + i + 1)). lia.
  - left. destruct (Hids _ _ Hk) as (j & Hj & ->). apply Hnode. lia.
  - right. by exists i, s, ks, k.
Qed.

(** X7: Every source of [connections] is the id of a node of the graph, or the
    text of an inherited member that a token of some [dependsOn] names. *)
Theorem sources_are_nodes_or_inherited (args : Args.t) (g : json) (p : string) :
  renderWorkflow args = Returns g →
  is_Some (graphConnections g !! p) →
  (∃ i n, graphNodes g !! i = Some n ∧ field "id" n = Some (JStr p)) ∨
  (∃ i s ks k, Args.steps args !! i = Some s ∧ Step.dependsOn s = Some ks ∧
               k ∈ ks ∧ k ∈ ObjectPrototype ∧ p = inheritedKey k).
Proof. apply render_sources. Qed.

Lemma sources_are_nodes_or_inherited_witness :
  renderWorkflow reorderedPlan = Returns reorderedGraph ∧
  ((∃ i n, graphNodes reorderedGraph !! i = Some n ∧ field "id" n = Some (JStr "4")) ∨
   (∃ i s ks k, Args.steps reorderedPlan !! i = Some s ∧ Step.dependsOn s = Some ks ∧
                k ∈ ks ∧ k ∈ ObjectPrototype ∧ "4" = inheritedKey k)).
Proof.
  assert (renderWorkflow reorderedPlan = Returns reorderedGraph) as H
    by (vm_compute; reflexivity).
  split; [exact H|].
  apply (sources_are_nodes_or_inherited reorderedPlan reorderedGraph "4" H).
  by eexists.
Defined.

(** ** Shape of the graph

    The shape is stated here, once the sources and the targets of the edges
    are known. *)






(** ** Appending steps, and what the result does not depend on *)

(** X8: The nodes of a plan stay what they are when steps are appended to the
    plan: if the longer plan renders, so does the shorter, and its nodes are
    the first nodes of the longer plan's graph. *)
Theorem appended_steps_keep_nodes (name : string) (trigger : Trigger)
    (cron : option string) (ss more : list Step.t) (g' : json) :
  renderWorkflow (Args.mk name trigger cron (ss ++ more)) = Returns g' →
  ∃ g, renderWorkflow (Args.mk name trigger cron ss) = Returns g ∧
       graphNodes g = take (length ss + 1) (graphNodes g').
Proof.
  intros H'.
  assert (∃ g, renderWorkflow (Args.mk name trigger cron ss) = Returns g) as [g H].
  { apply render_Returns_iff. cbn.
    assert (∃ g, renderWorkflow (Args.mk name trigger cron (ss ++ more)) = Returns g)
      as Hex by by exists g'.
    apply render_Returns_iff in Hex. cbn in Hex. by apply Forall_app in Hex as [? _]. }
  exists g. split; [done|].
  pose proof (render_nodes _ _ H) as (H0 & Hlen & Hn).
  pose proof (render_nodes _ _ H') as (H0' & Hlen' & Hn'). cbn [Args.steps] in *.
  rewrite length_app in Hlen'.
  apply list_eq. intros [|i].
  - rewrite lookup_take_lt by lia. by rewrite H0, H0'.
  - destruct (decide (i < length ss)%nat) as [Hi|Hi].
    + rewrite lookup_take_lt by lia.
      apply lookup_lt_is_Some in Hi as [s Hs].
      destruct (Hn i s Hs) as (spec & Hspec & E).
      destruct (Hn' i s) as (spec' & Hspec' & E'); [by apply lookup_app_l_Some|].
      assert (spec' = spec) as -> by congruence.
      replace (S i) with (i + 1) by lia. by rewrite E, E'.
    + rewrite lookup_take_ge by lia. apply lookup_ge_None. lia.
Qed.

Lemma appended_steps_keep_nodes_witness :
  ∃ g, renderWorkflow (Args.mk "sample" webhook None [httpStep]) = Returns g ∧
       graphNodes g = take 2 (graphNodes sampleGraph).
Proof.
  apply (appended_steps_keep_nodes "sample" webhook None [httpStep] [httpStep] sampleGraph).
  vm_compute. reflexivity.
Defined.

(** X9: The name of the plan has no part in the graph, and neither has the cron
    expression unless the trigger is [cron]. *)
Theorem name_and_idle_cron_ignored (name name' : string) (trigger : Trigger)
    (expr expr' : option string) (ss : list Step.t) :
  renderWorkflow (Args.mk name trigger expr ss)
  = renderWorkflow (Args.mk name' trigger expr ss) ∧
  (trigger ≠ cron →
   renderWorkflow (Args.mk name trigger expr ss)
   = renderWorkflow (Args.mk name trigger expr' ss)).
Proof.
  split; [reflexivity|]. intros Ht. by destruct trigger.
Qed.

Lemma name_and_idle_cron_ignored_witness :
  renderWorkflow (Args.mk "a" webhook (Some "0 * * * *") [httpStep])
  = renderWorkflow (Args.mk "a" webhook None [httpStep]).
Proof.
  apply (name_and_idle_cron_ignored "a" "a" webhook (Some "0 * * * *") None [httpStep]).
  discriminate.
Defined.

(** * The catalog listing and the configuration *)

Lemma NODE_SPECS_entries_map : NODE_SPECS = list_to_map NODE_SPECS_entries.
Proof. reflexivity. Qed.

Lemma NODE_SPECS_lookup (k : string) (spec : NodeSpec.t) :
  NODE_SPECS !! k = Some spec ↔ (k, spec) ∈ NODE_SPECS_entries.
Proof.
  rewrite NODE_SPECS_entries_map. symmetry. apply elem_of_list_to_map.
  unfold NODE_SPECS_entries. cbn.
  by apply (bool_decide_unpack _); vm_compute.
Qed.

(** X10: What [list_node_specs] lists is what the renderer uses: the listing has
    one entry per catalog name, and a step typed with a listed name renders
    (the name is not an inherited one) to a node of the listed type. *)
Theorem listed_types_are_rendered (e : json) :
  e ∈ list_node_specs →
  ∃ name type,
    e = obj [("name", JStr name); ("type", JStr type)] ∧
    (name ∉ ObjectPrototype) ∧
    (∃ spec, NODE_SPECS !! name = Some spec ∧ NodeSpec.type spec = type) ∧
    ∀ args g i s,
      renderWorkflow args = Returns g →
      Args.steps args !! i = Some s → Step.type s = name →
      ∃ n, graphNodes g !! (i + 1) = Some n ∧ field "type" n = Some (JStr type).
Proof.
  intros He. apply list_elem_of_fmap in He as ([name spec] & -> & Hin).
  exists name, (NodeSpec.type spec). cbn [fst snd].
  apply NODE_SPECS_lookup in Hin.
  split; [done|]. split; [|split].
  - intros Hname. by rewrite (catalog_not_inherited _ Hname) in Hin.
  - by exists spec.
  - intros args g i s H Hs <-.
    destruct (render_engine_type _ _ _ _ H Hs) as (n & Hn & _ & Hty).
    exists n. split; [done|]. by rewrite Hty, Hin.
Qed.

Lemma listed_types_are_rendered_witness :
  ∃ name type,
    obj [("name", JStr "Webhook"); ("type", JStr "n8n-nodes-base.webhook")]
    = obj [("name", JStr name); ("type", JStr type)] ∧
    (name ∉ ObjectPrototype).
Proof.
  destruct (listed_types_are_rendered
              (obj [("name", JStr "Webhook"); ("type", JStr "n8n-nodes-base.webhook")]))
    as (name & type & He & Hname & _).
  - unfold list_node_specs, NODE_SPECS_entries. cbn.
    apply elem_of_cons. right. apply elem_of_cons. right. apply elem_of_cons. by left.
  - by exists name, type.
Defined.

(** Every catalog name is listed, with its type. *)
Lemma catalog_names_are_listed (k : string) (spec : NodeSpec.t) :
  NODE_SPECS !! k = Some spec →
  obj [("name", JStr k); ("type", JStr (NodeSpec.type spec))] ∈ list_node_specs.
Proof.
  intros H. apply NODE_SPECS_lookup in H.
  apply list_elem_of_fmap. by exists (k, spec).
Qed.

(** ** Trailing slash *)

Lemma stripTrailingSlash_slash (u : string) : stripTrailingSlash (u +:+ "/") = u.
Proof.
  induction u as [|c u IH]; [done|].
  change (String c u +:+ "/") with (String c (u +:+ "/")).
  cbn [stripTrailingSlash]. rewrite IH.
  destruct u; reflexivity.
Qed.

Lemma stripTrailingSlash_cases (u : string) :
  u = stripTrailingSlash u +:+ "/" ∨
  (stripTrailingSlash u = u ∧ ∀ v, u ≠ v +:+ "/").
Proof.
  induction u as [|c u IH].
  - right. split; [done|]. by intros [|? ?].
  - destruct u as [|c' u].
    + cbn [stripTrailingSlash]. case_bool_decide as Hc.
      * left. by rewrite Hc.
      * right. split; [done|]. intros [|? [|? ?]] E; try done.
    + destruct IH as [IH|[IH Hno]].
      * left. change (stripTrailingSlash (String c (String c' u)))
          with (String c (stripTrailingSlash (String c' u))).
        change (String c (stripTrailingSlash (String c' u)) +:+ "/")
          with (String c (stripTrailingSlash (String c' u) +:+ "/")).
        by rewrite <- IH.
      * right. change (stripTrailingSlash (String c (String c' u)))
          with (String c (stripTrailingSlash (String c' u))).
        split; [by rewrite IH|].
        intros [|d v] E; [done|].
        change (String c (String c' u) = String d (v +:+ "/")) in E.
        injection E as _ E. by apply (Hno v).
Qed.

(** X11: The configuration is accepted exactly when both variables are set and
    not empty and the URL is not the bare slash; the URL kept is the given one
    with one slash less at its end, if it had any. *)
Theorem loadConfig_accepts (url key : option string) (cfg : Config.t) :
  loadConfig url key = Returns cfg ↔
  ∃ u k, url = Some u ∧ key = Some k ∧ u ≠ "" ∧ u ≠ "/" ∧ k ≠ "" ∧
         cfg = Config.mk (stripTrailingSlash u) k ∧
         (u = Config.N8N_URL cfg +:+ "/" ∨
          (u = Config.N8N_URL cfg ∧ ∀ v, u ≠ v +:+ "/")).
Proof.
  unfold loadConfig. split.
  - destruct url as [u|], key as [k|]; cbn [fmap option_fmap option_map];
      repeat case_bool_decide; cbn [orb]; try done.
    intros [= <-]. exists u, k.
    split; [done|]. split; [done|].
    split; [intros ->; by cbn in *|]. split; [intros ->; by cbn in *|].
    split; [done|]. split; [done|].
    cbn [Config.N8N_URL]. destruct (stripTrailingSlash_cases u) as [E|[E Hno]].
    + by left.
    + right. by rewrite E.
  - intros (u & k & -> & -> & Hu & Hu' & Hk & -> & _).
    cbn [fmap option_fmap option_map].
    assert (stripTrailingSlash u ≠ "") as Hs.
    { destruct (stripTrailingSlash_cases u) as [E|[E _]]; [|congruence].
      intros E'. rewrite E' in E. by apply Hu'. }
    by rewrite !bool_decide_eq_false_2 by done.
Qed.

Lemma loadConfig_accepts_witness :
  loadConfig (Some "https://n8n.example/") (Some "secret")
  = Returns (Config.mk "https://n8n.example" "secret").
Proof.
  apply loadConfig_accepts. exists "https://n8n.example/", "secret".
  repeat split; try done. by left.
Defined.

(** * The n8n client and the handlers *)

Section Handlers.
Context `{Runtime}.

Lemma IO_bind_Done {A B : Type} (m : IO A) (k : A → IO B) (n n' : Net) (a : A) :
  m n = (n', Done a) → (m ≫= k) n = k a n'.
Proof. intros E. unfold mbind, IO_bind. by rewrite E. Qed.

Lemma IO_bind_Raised {A B : Type} (m : IO A) (k : A → IO B) (n n' : Net) (e : exn) :
  m n = (n', Raised e) → (m ≫= k) n = (n', Raised e).
Proof. intros E. unfold mbind, IO_bind. by rewrite E. Qed.

Lemma IO_bind_inv {A B : Type} (m : IO A) (k : A → IO B) (n n2 : Net) (r : outcome B) :
  (m ≫= k) n = (n2, r) →
  (∃ n1 a, m n = (n1, Done a) ∧ k a n1 = (n2, r)) ∨
  (∃ e, m n = (n2, Raised e) ∧ r = Raised e).
Proof.
  unfold mbind, IO_bind. destruct (m n) as [n1 [a|e]]; intros E.
  - left. by exists n1, a.
  - right. exists e. by injection E as -> <-.
Qed.

Lemma lift_run {A : Type} (o : outcome A) (n : Net) : lift o n = (n, o).
Proof. reflexivity. Qed.

(** One call of the client is one call of [fetch]. *)
Lemma n8n_run (cfg : Config.t) (path : string) (init : RequestInit.t) (n : Net) :
  n8n cfg path init n
  = (mkNet (fetch (world n) (requestOf cfg path init)).1
           (sent n ++ [requestOf cfg path init]),
     answered path (fetch (world n) (requestOf cfg path init)).2).
Proof.
  unfold n8n, fetchIO, mbind, IO_bind, answered, lift.
  destruct (fetch (world n) (requestOf cfg path init)) as [w [res|e]]; cbn [fst snd];
    [|done].
  destruct (Response.ok res); [done|]. by destruct (Response.text res).
Qed.

Lemma n8n_sent (cfg : Config.t) (path : string) (init : RequestInit.t)
    (n n' : Net) (r : outcome json) :
  n8n cfg path init n = (n', r) →
  sent n' = sent n ++ [requestOf cfg path init].
Proof. rewrite n8n_run. by intros [= <- _]. Qed.

Lemma createInit_rendered (cfg : Config.t) (args : Args.t) (g : json) :
  renderWorkflow args = Returns g →
  requestOf cfg "/rest/workflows" (createInit (JStr (Args.name args)) g)
  = createRequest cfg (Args.name args) g.
Proof.
  intros Hg. apply render_Returns in Hg as (st & c & _ & _ & ->).
  unfold createRequest, createInit. rewrite graphNodes_obj, graphConnections_obj.
  reflexivity.
Qed.

Lemma render_Throws_inherited (args : Args.t) :
  Exists (λ s, Step.type s ∈ ObjectPrototype) (Args.steps args) →
  ∃ e, renderWorkflow args = Throws e.
Proof.
  intros Hex. destruct (renderWorkflow args) as [g|e] eqn:E; [|by exists e].
  assert (∃ g, renderWorkflow args = Returns g) as Hg by by exists g.
  apply render_Returns_iff in Hg. apply Exists_exists in Hex as (s & Hs & Hty).
  by apply (proj1 (Forall_forall _ _) Hg s Hs) in Hty.
Qed.

(** ** Composing *)

(** X12: A plan that does not render is not submitted: when a step is typed with
    an inherited name, [compose_workflow] fails with the renderer's error and
    no call of [fetch] is made. *)
Theorem compose_unrendered_sends_nothing (cfg : Config.t) (args : Args.t) (n : Net) :
  Exists (λ s, Step.type s ∈ ObjectPrototype) (Args.steps args) →
  ∃ e, renderWorkflow args = Throws e ∧
       compose_workflow cfg args n = (n, Raised (JsError e)).
Proof.
  intros Hex. apply render_Throws_inherited in Hex as [e He].
  exists e. split; [done|]. unfold compose_workflow. by rewrite He.
Qed.

(** X13: When the remote end refuses the creation, [compose_workflow] fails with
    a [server_error] that quotes the path, the status and the text of the
    answer, and the workflow is not activated: the creation is the only call
    made. *)
Theorem compose_refused_creation (cfg : Config.t) (args : Args.t) (g : json)
    (n : Net) (w : World) (res : Response.t) (text : string) :
  renderWorkflow args = Returns g →
  fetch (world n) (createRequest cfg (Args.name args) g) = (w, Done res) →
  Response.ok res = false → Response.text res = Done text →
  compose_workflow cfg args n
  = (mkNet w (sent n ++ [createRequest cfg (Args.name args) g]),
     Raised (MCPError "server_error"
               ("n8n /rest/workflows " +:+ js_String (Response.status res)
                +:+ ": " +:+ text))).
Proof.
  intros Hg Hf Hok Ht. unfold compose_workflow. rewrite Hg.
  erewrite IO_bind_Done by apply lift_run.
  erewrite IO_bind_Raised; [done|].
  rewrite n8n_run, (createInit_rendered _ _ _ Hg), Hf. cbn [fst snd answered].
  by rewrite Hok, Ht.
Qed.



End Handlers.

Lemma compose_unrendered_sends_nothing_witness :
  compose_workflow (H := acceptingRuntime) sampleConfig inheritedTypePlan (@mkNet acceptingRuntime tt [])
  = (@mkNet acceptingRuntime tt [],
     Raised (JsError
       "TypeError: Cannot read properties of undefined (reading 'parameters')")).
Proof.
  destruct (compose_unrendered_sends_nothing (H := acceptingRuntime)
              sampleConfig inheritedTypePlan (@mkNet acceptingRuntime tt [])) as (e & He & Hc).
  - apply Exists_cons_hd. by apply (bool_decide_unpack _); vm_compute.
  - change (@Throws json
              "TypeError: Cannot read properties of undefined (reading 'parameters')"
            = Throws e) in He.
    injection He as <-. exact Hc.
Defined.

Lemma compose_refused_creation_witness :
  compose_workflow (H := refusingRuntime) sampleConfig samplePlan (@mkNet refusingRuntime tt [])
  = (@mkNet refusingRuntime tt [createRequest (H := refusingRuntime) sampleConfig "sample" sampleGraph],
     Raised (MCPError "server_error" "n8n /rest/workflows 401: unauthorized")).
Proof.
  apply (compose_refused_creation (H := refusingRuntime) sampleConfig samplePlan
           sampleGraph (@mkNet refusingRuntime tt []) tt
           (Response.mk false 401 (Done "unauthorized") (Raised (JsError "SyntaxError")))
           "unauthorized"); vm_compute; reflexivity.
Defined.



(** ** What the handlers send *)

Section Calls.
Context `{Runtime}.

Lemma sends_weaken {A : Type} (cfg : Config.t) (k k' : nat) (m : IO A) :
  (k ≤ k')%nat → sends cfg k m → sends cfg k' m.
Proof.
  intros Hk Hm n n' r E. destruct (Hm n n' r E) as (reqs & E1 & Hl & Hall).
  exists reqs. split; [done|]. split; [lia|done].
Qed.

Lemma sends_lift {A : Type} (cfg : Config.t) (o : outcome A) : sends cfg 0 (lift o).
Proof.
  intros n n' r [= <- _]. exists []. rewrite app_nil_r. by repeat split.
Qed.

Lemma sends_ret {A : Type} (cfg : Config.t) (a : A) : sends cfg 0 (mret a).
Proof.
  intros n n' r [= <- _]. exists []. rewrite app_nil_r. by repeat split.
Qed.

Lemma requestOf_authorized (cfg : Config.t) (path : string) (init : RequestInit.t) :
  RequestInit.headers init = None → authorized cfg (requestOf cfg path init).
Proof.
  intros Hh. unfold authorized, requestOf. rewrite Hh. cbn [Request.url Request.headers].
  split; [by exists path|]. split; reflexivity.
Qed.

Lemma sends_n8n (cfg : Config.t) (path : string) (init : RequestInit.t) :
  RequestInit.headers init = None → sends cfg 1 (n8n cfg path init).
Proof.
  intros Hh n n' r E. apply n8n_sent in E.
  exists [requestOf cfg path init]. split; [done|]. split; [done|].
  repeat constructor; by apply requestOf_authorized.
Qed.

Lemma sends_bind {A B : Type} (cfg : Config.t) (a b : nat) (m : IO A) (k : A → IO B) :
  sends cfg a m → (∀ x, sends cfg b (k x)) → sends cfg (a + b) (m ≫= k).
Proof.
  intros Hm Hk n n2 r E.
  apply IO_bind_inv in E as [(n1 & x & E1 & E2)|(e & E1 & _)].
  - destruct (Hm _ _ _ E1) as (r1 & S1 & L1 & F1).
    destruct (Hk x _ _ _ E2) as (r2 & S2 & L2 & F2).
    exists (r1 ++ r2). rewrite S2, S1, app_assoc. split; [done|].
    rewrite length_app. split; [lia|]. by apply Forall_app.
  - destruct (Hm _ _ _ E1) as (r1 & S1 & L1 & F1).
    exists r1. split; [done|]. split; [lia|done].
Qed.

Lemma sends_activateCreated (cfg : Config.t) (created : json) :
  sends cfg 1 (activateCreated cfg created).
Proof.
  unfold activateCreated.
  apply (sends_bind cfg 0 1); [apply sends_lift|]. intros id.
  apply (sends_bind cfg 0 1); [apply sends_lift|]. intros s.
  by apply sends_n8n.
Qed.

(** X19: Whatever tool is called and however the remote end answers, the handler
    makes at most two calls of [fetch], each to a path under the configured
    URL and each carrying the API key and the JSON content type. *)
Theorem every_call_is_authorized_and_bounded (cfg : Config.t) (c : Call) :
  sends cfg 2 (handle cfg c).
Proof.
  destruct c as [|plan|args|args|name workflow|id|id|id|limit offset|id|args];
    cbn [handle].
  - apply (sends_weaken cfg 0); [lia|apply sends_ret].
  - unfold plan_workflow. apply (sends_weaken cfg 0); [lia|apply sends_ret].
  - apply (sends_weaken cfg 0); [lia|apply sends_lift].
  - unfold create_workflow.
    apply (sends_bind cfg 0 2).
    { destruct (CreateWorkflowArgs.workflow args); [apply sends_lift|apply sends_ret]. }
    intros payload. apply (sends_bind cfg 1 1); [by apply sends_n8n|].
    intros created. destruct (CreateWorkflowArgs.activate args).
    + apply (sends_bind cfg 1 0); [apply sends_activateCreated|].
      intros _. apply sends_ret.
    + apply (sends_weaken cfg 0); [lia|apply sends_ret].
  - unfold create_and_activate.
    apply (sends_bind cfg 1 1); [by apply sends_n8n|]. intros created.
    apply (sends_bind cfg 1 0); [apply sends_activateCreated|].
    intros _. apply sends_ret.
  - unfold activate_workflow. apply (sends_weaken cfg (0 + (1 + 0))); [lia|].
    apply sends_bind; [apply sends_lift|]. intros s.
    apply sends_bind; [by apply sends_n8n|]. intros _. apply sends_ret.
  - unfold deactivate_workflow. apply (sends_weaken cfg (0 + (1 + 0))); [lia|].
    apply sends_bind; [apply sends_lift|]. intros s.
    apply sends_bind; [by apply sends_n8n|]. intros _. apply sends_ret.
  - unfold get_workflow. apply (sends_weaken cfg (0 + 1)); [lia|].
    apply sends_bind; [apply sends_lift|]. intros s. by apply sends_n8n.
  - unfold list_workflows. apply (sends_weaken cfg (0 + (0 + 1))); [lia|].
    apply sends_bind; [apply sends_lift|]. intros l.
    apply sends_bind; [apply sends_lift|]. intros o. by apply sends_n8n.
  - unfold delete_workflow. apply (sends_weaken cfg (0 + (1 + 0))); [lia|].
    apply sends_bind; [apply sends_lift|]. intros s.
    apply sends_bind; [by apply sends_n8n|]. intros _. apply sends_ret.
  - unfold compose_workflow.
    apply (sends_bind cfg 0 2); [apply sends_lift|]. intros workflow.
    apply (sends_bind cfg 1 1); [by apply sends_n8n|]. intros created.
    apply (sends_bind cfg 1 0); [apply sends_activateCreated|].
    intros _. apply sends_ret.
Qed.

(** ** Reading success *)

Lemma n8n_Done (cfg : Config.t) (path : string) (init : RequestInit.t)
    (n n' : Net) (v : json) :
  n8n cfg path init n = (n', Done v) →
  ∃ res, fetch (world n) (requestOf cfg path init) = (world n', Done res) ∧
         Response.ok res = true ∧ Response.json res = Done v ∧
         sent n' = sent n ++ [requestOf cfg path init].
Proof.
  rewrite n8n_run. intros [= <- E].
  destruct (fetch (world n) (requestOf cfg path init)) as [w [res|e]];
    cbn [fst snd answered world sent] in *; [|done].
  exists res. destruct (Response.ok res); [done|].
  by destruct (Response.text res).
Qed.

Lemma lift_Done {A : Type} (o : outcome A) (n n' : Net) (a : A) :
  lift o n = (n', Done a) → n' = n ∧ o = Done a.
Proof. by intros [= <- ->]. Qed.

Lemma IO_bind_Done_inv {A B : Type} (m : IO A) (k : A → IO B) (n n2 : Net) (b : B) :
  (m ≫= k) n = (n2, Done b) →
  ∃ n1 a, m n = (n1, Done a) ∧ k a n1 = (n2, Done b).
Proof.
  intros E. apply IO_bind_inv in E as [E|(e & _ & E)]; [done|discriminate E].
Qed.

Lemma activateCreated_Done (cfg : Config.t) (created : json) (n n' : Net) (v : json) :
  activateCreated cfg created n = (n', Done v) →
  ∃ id s res,
    created_id created = Done id ∧ ToString id = Done s ∧
    fetch (world n) (requestOf cfg ("/rest/workflows/" +:+ s +:+ "/activate") POST)
    = (world n', Done res) ∧
    Response.ok res = true ∧ Response.json res = Done v ∧
    sent n' = sent n ++ [requestOf cfg ("/rest/workflows/" +:+ s +:+ "/activate") POST].
Proof.
  unfold activateCreated. intros E.
  apply IO_bind_Done_inv in E as (n1 & id & E1 & E).
  apply lift_Done in E1 as [-> Hid].
  apply IO_bind_Done_inv in E as (n1 & s & E1 & E).
  apply lift_Done in E1 as [-> Hs].
  apply n8n_Done in E as (res & Hf & Hok & Hj & Hsent).
  by exists id, s, res.
Qed.

(** X16: [compose_workflow] returns a value only when the plan rendered and the
    remote end accepted both the creation and the activation, answering each
    with JSON; the value is the answer to the creation. *)
Theorem compose_done_means_created_and_activated (cfg : Config.t) (args : Args.t)
    (n n' : Net) (v : json) :
  compose_workflow cfg args n = (n', Done v) →
  ∃ g id s w1 res1 res2 body2,
    renderWorkflow args = Returns g ∧
    fetch (world n) (createRequest cfg (Args.name args) g) = (w1, Done res1) ∧
    Response.ok res1 = true ∧ Response.json res1 = Done v ∧
    created_id v = Done id ∧ ToString id = Done s ∧
    fetch w1 (requestOf cfg ("/rest/workflows/" +:+ s +:+ "/activate") POST)
    = (world n', Done res2) ∧
    Response.ok res2 = true ∧ Response.json res2 = Done body2 ∧
    sent n' = sent n ++ [ createRequest cfg (Args.name args) g;
                          requestOf cfg ("/rest/workflows/" +:+ s +:+ "/activate") POST ].
Proof.
  unfold compose_workflow. intros E.
  apply IO_bind_Done_inv in E as (n0 & g & E0 & E).
  apply lift_Done in E0 as [-> Hg].
  destruct (renderWorkflow args) as [g'|e] eqn:Hr; [|discriminate Hg].
  injection Hg as ->.
  apply IO_bind_Done_inv in E as (n1 & created & E1 & E).
  apply n8n_Done in E1 as (res1 & Hf1 & Hok1 & Hj1 & Hsent1).
  rewrite (createInit_rendered _ _ _ Hr) in Hf1, Hsent1.
  apply IO_bind_Done_inv in E as (n2 & body2 & E2 & E).
  injection E as -> ->.
  apply activateCreated_Done in E2 as (id & s & res2 & Hid & Hs & Hf2 & Hok2 & Hj2 & Hsent2).
  exists g, id, s, (world n1), res1, res2, body2.
  repeat split; try done.
  rewrite Hsent2, Hsent1. by rewrite <- app_assoc.
Qed.

(** ** Creating *)


(** ** Operations on one workflow *)



End Calls.

Lemma compose_done_means_created_and_activated_witness :
  ∃ g id s,
    renderWorkflow samplePlan = Returns g ∧
    created_id (obj [("id", JStr "7")]) = Done id ∧
    ToString (H := acceptingRuntime) id = Done s.
Proof.
  destruct (compose_done_means_created_and_activated (H := acceptingRuntime)
              sampleConfig samplePlan (@mkNet acceptingRuntime tt [])
              (@mkNet acceptingRuntime tt
                 [ createRequest (H := acceptingRuntime) sampleConfig "sample" sampleGraph;
                   requestOf sampleConfig "/rest/workflows/7/activate" POST ])
              (obj [("id", JStr "7")]))
    as (g & id & s & w1 & res1 & res2 & body2 & Hg & _ & _ & _ & Hid & Hs & _).
  - vm_compute. reflexivity.
  - by exists g, id, s.
Defined.

